(** * loggo: the remote (GCP) log reader, [internal/reader/gcp_reader.go]

    A shallow embedding of the reader that streams Google Cloud Logging
    entries: the time-range parser [ParseFrom], the entry normaliser
    [massageEntryLog], the historical loop [streamFrom], the tail loop
    [streamTail], the launcher [StreamInto], [Close] and the
    authentication gate [CheckAuth].

    Go values are modelled as the code has them: strings are byte strings,
    [int64] and [time.Duration] are integers with their wrap-around written
    out, the [map[string]interface{}] built by the normaliser is a [gmap]
    keyed by strings, a panic, a return and a process exit are separate
    outcomes.  The pieces of the Go standard library and of the protobuf
    runtime that the reader calls ([strings.TrimSpace], [regexp], package
    [time], [encoding/json], [protojson]) are modelled from their documented
    behaviour, each in a module of its own. *)

From Stdlib Require Import ZArith Lia String Ascii List Bool.
From stdpp Require Import base option gmap strings list pretty.

Local Open Scope Z_scope.

#[local] Set Warnings "-register-all".

(** ** Bytes and strings *)

Module GoString.

Definition byte_val (c : ascii) : Z := Z.of_nat (nat_of_ascii c).

Definition byte_of (n : Z) : ascii := ascii_of_nat (Z.to_nat n).

(** [\d] of Go's regexp syntax: an ASCII digit. *)
Definition isDigit (c : ascii) : bool :=
  (48 <=? byte_val c) && (byte_val c <=? 57).

Definition digitVal (c : ascii) : Z := byte_val c - 48.

(** ['0' + byte(u)] *)
Definition utod (u : Z) : ascii := byte_of (48 + u).

Fixpoint bytes (s : string) : list ascii :=
  match s with
  | EmptyString => []
  | String c r => c :: bytes r
  end.

Fixpoint of_bytes (l : list ascii) : string :=
  match l with
  | [] => EmptyString
  | c :: r => String c (of_bytes r)
  end.

Definition codes (s : string) : list Z := map byte_val (bytes s).

(** The UTF-8 encodings of the code points with the Unicode White_Space
    property, which is what [unicode.IsSpace] accepts: U+0009..U+000D,
    U+0020, U+0085, U+00A0, U+1680, U+2000..U+200A, U+2028, U+2029,
    U+202F, U+205F, U+3000.  [dropSpace] removes one such rune from the
    front of a byte sequence. *)
Definition asciiSpace (c : Z) : bool :=
  ((9 <=? c) && (c <=? 13)) || (c =? 32).

Definition dropSpace (l : list Z) : option (list Z) :=
  match l with
  | [] => None
  | c :: r =>
      if asciiSpace c then Some r
      else
        match l with
        | 194 :: 133 :: r' => Some r'
        | 194 :: 160 :: r' => Some r'
        | 225 :: 154 :: 128 :: r' => Some r'
        | 226 :: 128 :: d :: r' =>
            if ((128 <=? d) && (d <=? 138)) || (d =? 168) || (d =? 169) || (d =? 175)
            then Some r' else None
        | 226 :: 129 :: 159 :: r' => Some r'
        | 227 :: 128 :: 128 :: r' => Some r'
        | _ => None
        end
  end.

(** The same rune read from the back: the sequence is given reversed. *)
Definition dropSpaceRev (l : list Z) : option (list Z) :=
  match l with
  | [] => None
  | c :: r =>
      if asciiSpace c then Some r
      else
        match l with
        | 133 :: 194 :: r' => Some r'
        | 160 :: 194 :: r' => Some r'
        | 128 :: 154 :: 225 :: r' => Some r'
        | 159 :: 129 :: 226 :: r' => Some r'
        | 128 :: 128 :: 227 :: r' => Some r'
        | d :: 128 :: 226 :: r' =>
            if ((128 <=? d) && (d <=? 138)) || (d =? 168) || (d =? 169) || (d =? 175)
            then Some r' else None
        | _ => None
        end
  end.

Fixpoint trimWith (drop : list Z -> option (list Z)) (fuel : nat) (l : list Z)
  : list Z :=
  match fuel with
  | O => l
  | S fuel' =>
      match drop l with
      | Some r => trimWith drop fuel' r
      | None => l
      end
  end.

Definition trimLeft (l : list Z) : list Z := trimWith dropSpace (length l) l.

Definition trimRight (l : list Z) : list Z :=
  rev (trimWith dropSpaceRev (length l) (rev l)).

(** [strings.TrimSpace] *)
Definition TrimSpace (s : string) : string :=
  of_bytes (map byte_of (trimRight (trimLeft (codes s)))).

End GoString.

(** ** Package [time] *)

Module GoTime.
Import GoString.

(** Two's-complement wrap-around of [int64] arithmetic. *)
Definition wrap64 (z : Z) : Z := (z + 2 ^ 63) mod 2 ^ 64 - 2 ^ 63.

Definition maxInt64 : Z := 2 ^ 63 - 1.

(** [time.Duration] is an [int64] count of nanoseconds. *)
Definition Second : Z := 1000000000.
Definition Minute : Z := 60 * Second.
Definition Hour : Z := 60 * Minute.

Inductive Location := UTC | Local.

(** A [time.Time]: seconds and nanoseconds since the Unix epoch, and the
    location it is to be displayed in. *)
Record Time := mkTime { sec : Z; nsec : Z; loc : Location }.

(** What the process reads from its surroundings: the wall clock, and the
    offset (seconds east of UTC) that the local time zone has at a given
    instant. *)
Record Clock := mkClock { now_sec : Z; now_nsec : Z; zone : Z -> Z }.

Definition Now (ck : Clock) : Time := mkTime (now_sec ck) (now_nsec ck) Local.

(** [t.Add(d)] *)
Definition Add (t : Time) (d : Z) : Time :=
  let dsec := Z.quot d 1000000000 in
  let ns := nsec t + Z.rem d 1000000000 in
  if 1000000000 <=? ns then mkTime (sec t + dsec + 1) (ns - 1000000000) (loc t)
  else if ns <? 0 then mkTime (sec t + dsec - 1) (ns + 1000000000) (loc t)
  else mkTime (sec t + dsec) ns (loc t).

(** [time.Unix(sec, nsec)] brings [nsec] into [[0, 1e9)]. *)
Definition Unix (s ns : Z) : Time :=
  mkTime (s + ns / 1000000000) (ns mod 1000000000) Local.

Definition In (l : Location) (t : Time) : Time := mkTime (sec t) (nsec t) l.

(** *** The proleptic Gregorian calendar *)

Definition isLeap (y : Z) : bool :=
  (y mod 4 =? 0) && (negb (y mod 100 =? 0) || (y mod 400 =? 0)).

Definition leapDay (y : Z) : Z := if isLeap y then 1 else 0.

Definition daysIn (m y : Z) : Z :=
  if m =? 2 then 28 + leapDay y
  else if (m =? 4) || (m =? 6) || (m =? 9) || (m =? 11) then 30
  else 31.

(** Days of the year [y] that precede its month [m]. *)
Definition daysBefore (m y : Z) : Z :=
  if m <=? 1 then 0
  else if m =? 2 then 31
  else leapDay y +
    (if m =? 3 then 59 else if m =? 4 then 90 else if m =? 5 then 120
     else if m =? 6 then 151 else if m =? 7 then 181 else if m =? 8 then 212
     else if m =? 9 then 243 else if m =? 10 then 273 else if m =? 11 then 304
     else 334).

(** Days from 0000-01-01 to the first day of year [y]. *)
Definition daysBeforeYear (y : Z) : Z :=
  365 * y + (y + 3) / 4 - (y + 99) / 100 + (y + 399) / 400.

(** Days from 0000-01-01 to 1970-01-01. *)
Definition epochDays : Z := 719528.

(** The year that holds day [n], counted from 0000-01-01: an estimate
    from the mean year length, corrected by at most one. *)
Definition yearOfDay (n : Z) : Z :=
  let e := 400 * n / 146097 in
  if n <? daysBeforeYear e then e - 1
  else if daysBeforeYear (e + 1) <=? n then e + 1
  else e.

Definition monthOfYday (y yd : Z) : Z :=
  let l := leapDay y in
  if yd <? 31 then 1 else if yd <? 59 + l then 2 else if yd <? 90 + l then 3
  else if yd <? 120 + l then 4 else if yd <? 151 + l then 5
  else if yd <? 181 + l then 6 else if yd <? 212 + l then 7
  else if yd <? 243 + l then 8 else if yd <? 273 + l then 9
  else if yd <? 304 + l then 10 else if yd <? 334 + l then 11 else 12.

(** Year, month and day of the day [days] after 1970-01-01. *)
Definition civilOfDays (days : Z) : Z * Z * Z :=
  let n := days + epochDays in
  let y := yearOfDay n in
  let yd := n - daysBeforeYear y in
  let m := monthOfYday y yd in
  (y, m, yd - daysBefore m y + 1).

Definition daysOfCivil (y m d : Z) : Z :=
  daysBeforeYear y + daysBefore m y + (d - 1) - epochDays.

(** [time.Date(y, m, d, h, mi, s, 0, time.UTC)] for fields in range. *)
Definition Date (y m d h mi s : Z) : Time :=
  mkTime (daysOfCivil y m d * 86400 + h * 3600 + mi * 60 + s) 0 UTC.

(** *** Formatting *)

Fixpoint decimal (fuel : nat) (u : Z) (acc : string) : string :=
  match fuel with
  | O => acc
  | S fuel' =>
      let acc' := String (utod (u mod 10)) acc in
      if u / 10 =? 0 then acc' else decimal fuel' (u / 10) acc'
  end.

Fixpoint zeros (n : nat) : string :=
  match n with
  | O => EmptyString
  | S n' => String "0" (zeros n')
  end.

(** [appendInt]: an optional sign, then the decimal digits of the
    magnitude, padded with zeros up to [width]; widths 2 and 4 take the
    fixed-digit path when the magnitude fits. *)
Definition appendInt (x : Z) (width : nat) : string :=
  let u := Z.abs x in
  let sign := if x <? 0 then "-"%string else EmptyString in
  if (Nat.eqb width 2) && (u <? 100) then
    sign +:+ String (utod (u / 10)) (String (utod (u mod 10)) EmptyString)
  else if (Nat.eqb width 4) && (u <? 10000) then
    sign +:+ String (utod (u / 1000)) (String (utod (u / 100 mod 10))
               (String (utod (u / 10 mod 10)) (String (utod (u mod 10)) EmptyString)))
  else
    let ds := decimal 20 u EmptyString in
    sign +:+ zeros (width - String.length ds) +:+ ds.

(** The offset in effect for [t]: zero in UTC, the zone's in [Local]. *)
Definition offsetOf (ck : Clock) (t : Time) : Z :=
  match loc t with
  | UTC => 0
  | Local => zone ck (sec t)
  end.

(** The [Z07:00] element of a layout. *)
Definition zoneSuffix (offset : Z) : string :=
  if offset =? 0 then "Z"%string
  else
    let z := Z.quot offset 60 in
    (if z <? 0 then "-"%string else "+"%string)
      +:+ appendInt (Z.abs z / 60) 2 +:+ ":" +:+ appendInt (Z.abs z mod 60) 2.

(** [t.Format(time.RFC3339)], layout [2006-01-02T15:04:05Z07:00]. *)
Definition FormatRFC3339 (ck : Clock) (t : Time) : string :=
  let off := offsetOf ck t in
  let abs := sec t + off in
  let sod := abs mod 86400 in
  let '(y, m, d) := civilOfDays (abs / 86400) in
  appendInt y 4 +:+ "-" +:+ appendInt m 2 +:+ "-" +:+ appendInt d 2 +:+ "T"
    +:+ appendInt (sod / 3600) 2 +:+ ":" +:+ appendInt (sod mod 3600 / 60) 2
    +:+ ":" +:+ appendInt (sod mod 60) 2 +:+ zoneSuffix off.

(** *** Parsing *)

Definition num2 (a b : ascii) : Z := 10 * digitVal a + digitVal b.

Definition num4 (a b c d : ascii) : Z :=
  1000 * digitVal a + 100 * digitVal b + 10 * digitVal c + digitVal d.

(** The fields of a string laid out as [2006-01-02T15:04:05]: year,
    month, day, hour, minute, second. *)
Definition fields (s : string) : option (Z * Z * Z * Z * Z * Z) :=
  match bytes s with
  | [y1; y2; y3; y4; c1; m1; m2; c2; d1; d2; c3; h1; h2; c4; i1; i2; c5; s1; s2] =>
      if forallb isDigit [y1; y2; y3; y4; m1; m2; d1; d2; h1; h2; i1; i2; s1; s2]
         && Ascii.eqb c1 "-" && Ascii.eqb c2 "-" && Ascii.eqb c3 "T"
         && Ascii.eqb c4 ":" && Ascii.eqb c5 ":"
      then Some (num4 y1 y2 y3 y4, num2 m1 m2, num2 d1 d2,
                 num2 h1 h2, num2 i1 i2, num2 s1 s2)
      else None
  | _ => None
  end.

(** The range checks of [time.Parse]: month, hour, minute and second as
    they are read, the day of the month once the whole value is read. *)
Definition inRange (f : Z * Z * Z * Z * Z * Z) : bool :=
  let '(y, m, d, h, mi, s) := f in
  (1 <=? m) && (m <=? 12) && (h <? 24) && (mi <? 60) && (s <? 60)
  && (1 <=? d) && (d <=? daysIn m y).

(** [time.Parse("2006-01-02T15:04:05", s)]: without a zone in the layout
    the value is in UTC.  [None] is a parse error. *)
Definition Parse (s : string) : option Time :=
  match fields s with
  | Some ((((((y, m), d), h), mi), sc) as f) =>
      if inRange f then Some (Date y m d h mi sc) else None
  | None => None
  end.

(** The text of a date and a time of day, as [2006-01-02T15:04:05]. *)
Definition civilText (y m d h mi s : Z) : string :=
appendInt y 4 +:+ "-" +:+ appendInt m 2 +:+ "-" +:+ appendInt d 2 +:+ "T"
  +:+ appendInt h 2 +:+ ":" +:+ appendInt mi 2 +:+ ":" +:+ appendInt s 2.

End GoTime.

(** ** Outcomes of a call *)

(** A call returns, ends the process, or panics. *)
Inductive outcome (A : Type) : Type :=
| Ret (a : A)
| Exit (msg : string)
| Panic (v : string).

Arguments Ret {A} a.
Arguments Exit {A} msg.
Arguments Panic {A} v.

(** Modelled from the spec: [util.Log().Fatal] of package [internal/util],
    which is not among the sources.  A bad time range is a fatal
    configuration error that terminates the invoking command, and a
    failed delegated login terminates the process: the call logs its
    message and does not return. *)
Definition Fatal {A : Type} (msg : string) : outcome A := Exit msg.

Definition obind {A B : Type} (o : outcome A) (k : A -> outcome B) : outcome B :=
  match o with
  | Ret a => k a
  | Exit msg => Exit msg
  | Panic v => Panic v
  end.

(** ** [ParseFrom] *)

Module TimeRange.
Import GoString GoTime.

Definition isUnit (c : ascii) : bool :=
  Ascii.eqb c "s" || Ascii.eqb c "m" || Ascii.eqb c "d" || Ascii.eqb c "h".

(** [^\d+(s|m|d|h)$] *)
Definition regF (s : string) : bool :=
  match rev (bytes s) with
  | u :: d :: ds => isUnit u && forallb isDigit (d :: ds)
  | _ => false
  end.

(** [^\d{4}(-\d{2}){2}T(\d{2}:){2}\d{2}$] *)
Definition regD (s : string) : bool :=
  match bytes s with
  | [y1; y2; y3; y4; c1; m1; m2; c2; d1; d2; c3; h1; h2; c4; i1; i2; c5; s1; s2] =>
      forallb isDigit [y1; y2; y3; y4] && Ascii.eqb c1 "-"
      && forallb isDigit [m1; m2] && Ascii.eqb c2 "-"
      && forallb isDigit [d1; d2] && Ascii.eqb c3 "T"
      && forallb isDigit [h1; h2] && Ascii.eqb c4 ":"
      && forallb isDigit [i1; i2] && Ascii.eqb c5 ":"
      && forallb isDigit [s1; s2]
  | _ => false
  end.

(** [strconv.ParseInt(digits, 10, 64)] on a run of digits, its error
    dropped: the value, or the largest [int64] when it does not fit. *)
Definition ParseInt (ds : list ascii) : Z :=
  let v := fold_left (fun acc c => 10 * acc + digitVal c) ds 0 in
  if v <=? maxInt64 then v else maxInt64.

(** The [switch unit] of [ParseFrom]; [time.Duration] arithmetic wraps. *)
Definition durationOf (unit : ascii) (numb : Z) : Z :=
  if Ascii.eqb unit "s" then wrap64 (Second * numb)
  else if Ascii.eqb unit "m" then wrap64 (Minute * numb)
  else if Ascii.eqb unit "h" then wrap64 (Hour * numb)
  else if Ascii.eqb unit "d" then wrap64 (wrap64 (Hour * numb) * 24)
  else 0.

Definition ParseFrom (ck : Clock) (str : string) : outcome string :=
  let str := TrimSpace str in
  if String.eqb str "tail" then Ret "tail"%string
  else if regF str then
    let bs := bytes str in
    let numb := ParseInt (removelast bs) in
    let unit := List.last bs "000"%char in
    let duration := durationOf unit numb in
    Ret (FormatRFC3339 ck (Add (Now ck) (wrap64 (-1 * duration))))
  else if regD str then
    match Parse str with
    | None => Fatal "Invalid parameter for 'from' flag - bad format: "
    | Some t => Ret (FormatRFC3339 ck t)
    end
  else Fatal "Invalid parameter for 'from' flag.".

(** The nineteen bytes of a string laid out as [2006-01-02T15:04:05]. *)
Definition laidOut (y1 y2 y3 y4 m1 m2 d1 d2 h1 h2 i1 i2 s1 s2 : ascii) : list ascii :=
[y1; y2; y3; y4; "-"; m1; m2; "-"; d1; d2; "T"; h1; h2; ":"; i1; i2; ":"; s1; s2]%char.

(** The inputs [ParseFrom] resolves: the word [tail], a run of digits
  followed by a unit, or a date and time of the layout
  [2006-01-02T15:04:05] that [time.Parse] accepts. *)
Definition recognized (s : string) : Prop :=
s = "tail"%string \/ regF s = true \/ is_Some (Parse s).

End TimeRange.

(** ** Package [encoding/json] *)

Module Json.

(** A [float64]: a finite number, written as a decimal mantissa and
    exponent, or one of the values JSON cannot spell. *)
Inductive float64 :=
| Finite (mant exp : Z)
| NaN
| Inf (negative : bool).

(** A JSON document. *)
Inductive doc :=
| DNull
| DBool (b : bool)
| DNum (mant exp : Z)
| DStr (s : string)
| DArr (l : list doc)
| DObj (kvs : list (string * doc)).

(** What an [interface{}] holds once [json.Unmarshal] has filled it
    ([nil], [bool], [float64], [string], [[]interface{}],
    [map[string]interface{}]). *)
Inductive value :=
| Nil
| Bool (b : bool)
| Number (f : float64)
| Str (s : string)
| Slice (l : list value)
| Map (kvs : list (string * value)).

(** [json.Unmarshal] into an [interface{}].  A number is kept as the
    decimal it is written with: the rounding to [float64] is left out,
    so what is said of numbers below holds where that rounding changes
    nothing, as for the numbers of a [structpb.Struct], which are
    [float64] from the start, and for integers of magnitude up to
    2^53. *)
Fixpoint decode (d : doc) : value :=
  match d with
  | DNull => Nil
  | DBool b => Bool b
  | DNum m e => Number (Finite m e)
  | DStr s => Str s
  | DArr l => Slice (map decode l)
  | DObj kvs => Map (map (fun kv => (fst kv, decode (snd kv))) kvs)
  end.

(** [json.Marshal] of such a value; [None] is its error
    ([UnsupportedValueError] on a number that is not finite). *)
Fixpoint encode (v : value) : option doc :=
  match v with
  | Nil => Some DNull
  | Bool b => Some (DBool b)
  | Number (Finite m e) => Some (DNum m e)
  | Number _ => None
  | Str s => Some (DStr s)
  | Slice l =>
      option_map DArr
        ((fix go (l : list value) : option (list doc) :=
            match l with
            | [] => Some []
            | x :: r =>
                match encode x, go r with
                | Some a, Some b => Some (a :: b)
                | _, _ => None
                end
            end) l)
  | Map kvs =>
      option_map DObj
        ((fix go (l : list (string * value)) : option (list (string * doc)) :=
            match l with
            | [] => Some []
            | (k, x) :: r =>
                match encode x, go r with
                | Some a, Some b => Some ((k, a) :: b)
                | _, _ => None
                end
            end) kvs)
  end.

(** The bytes a [Marshal] leaves in [b] when its error is dropped: the
    text of a JSON object, or nothing at all. *)
Inductive text :=
| Empty
| Object (members : gmap string doc).

(** [json.Marshal(m)] for [m : map[string]interface{}]. *)
Definition Marshal (m : gmap string value) : option (gmap string doc) :=
  if decide (map_Forall (fun _ v => is_Some (encode v)) m)
  then Some (omap encode m) else None.

(** [json.Unmarshal(b, &m)], its error dropped: the members of the
    object in [b] are stored into [m]; without an object [m] is left as
    it was. *)
Definition Unmarshal (b : option (list (string * doc))) (m : gmap string value)
  : gmap string value :=
  match b with
  | Some kvs => fold_left (fun acc kv => <[fst kv := decode (snd kv)]> acc) kvs m
  | None => m
  end.

(** [v.(map[string]interface{})[k]]: the single-value type assertion
    panics unless [v] holds a map; a key the map lacks reads as [nil]. *)
Definition assertMapIndex (v : option value) (k : string) : outcome value :=
  match v with
  | Some (Map kvs) =>
      Ret (default Nil (snd <$> find (fun kv => String.eqb (fst kv) k) kvs))
  | _ => Panic "interface conversion: interface {} is not map[string]interface {}"
  end.

(** The values that come out of [json.Unmarshal]. *)
Definition decoded (v : value) : Prop := exists d, v = decode d.

Definition hasKey {A : Type} (k : string) (l : list (string * A)) : bool :=
existsb (fun kv => String.eqb (fst kv) k) l.

Definition store (acc : gmap string value) (kv : string * doc) : gmap string value :=
<[fst kv := decode (snd kv)]> acc.

End Json.

(** ** The log entry of the Cloud Logging API *)

Module Logging.
Import Json.

(** [structpb.Value]: a oneof that may be left unset. *)
Inductive Value :=
| KindUnset
| NullValue
| NumberValue (f : float64)
| StringValue (s : string)
| BoolValue (b : bool)
| StructValue (fields : list (string * Value))
| ListValue (values : list Value).

(** [structpb.Struct] *)
Definition Struct : Type := list (string * Value).

(** [protojson.Marshal] of a [Value], which [Struct.MarshalJSON] calls:
    a value whose kind is unset and a number that is not finite are
    errors. *)
Fixpoint marshalValue (v : Value) : option doc :=
  match v with
  | KindUnset => None
  | NullValue => Some DNull
  | NumberValue (Finite m e) => Some (DNum m e)
  | NumberValue _ => None
  | StringValue s => Some (DStr s)
  | BoolValue b => Some (DBool b)
  | StructValue fs =>
      option_map DObj
        ((fix go (l : list (string * Value)) : option (list (string * doc)) :=
            match l with
            | [] => Some []
            | (k, x) :: r =>
                match marshalValue x, go r with
                | Some a, Some b => Some ((k, a) :: b)
                | _, _ => None
                end
            end) fs)
  | ListValue vs =>
      option_map DArr
        ((fix go (l : list Value) : option (list doc) :=
            match l with
            | [] => Some []
            | x :: r =>
                match marshalValue x, go r with
                | Some a, Some b => Some (a :: b)
                | _, _ => None
                end
            end) vs)
  end.

Definition marshalStruct (s : Struct) : option doc := marshalValue (StructValue s).

(** [timestamppb.Timestamp] *)
Record Timestamp := mkTimestamp { Seconds : Z; Nanos : Z }.

(** [anypb.Any] *)
Record Any := mkAny { TypeUrl : string; AnyValue : string }.

(** The oneof [payload] of a [LogEntry]: the wrapper chosen and the
    field it holds (a pointer field may be nil). *)
Inductive isLogEntry_Payload :=
| LogEntry_ProtoPayload (ProtoPayload : option Any)
| LogEntry_TextPayload (TextPayload : string)
| LogEntry_JsonPayload (JsonPayload : option Struct).

(** [loggingpb.LogEntry].  A nested message whose content plays no part
    here is kept as the JSON object it marshals to. *)
Record LogEntry := mkLogEntry {
  LogName : string;
  Resource : option (list (string * doc));
  Payload : option isLogEntry_Payload;
  Timestamp_ : option Timestamp;
  ReceiveTimestamp : option Timestamp;
  Severity : Z;
  InsertId : string;
  HttpRequest : option (list (string * doc));
  Labels : list (string * string);
  Operation : option (list (string * doc));
  Trace : string;
  SpanId : string;
  TraceSampled : bool;
  SourceLocation : option (list (string * doc));
  Split : option (list (string * doc))
}.

Definition GetJsonPayload (x : LogEntry) : option Struct :=
  match Payload x with
  | Some (LogEntry_JsonPayload p) => p
  | _ => None
  end.

Definition GetTextPayload (x : LogEntry) : string :=
  match Payload x with
  | Some (LogEntry_TextPayload t) => t
  | _ => EmptyString
  end.

Definition GetSeverity (x : LogEntry) : Z := Severity x.

Definition GetTimestamp (x : LogEntry) : option Timestamp := Timestamp_ x.

(** [Timestamp.AsTime]; the getters of a nil timestamp read zero. *)
Definition AsTime (t : option Timestamp) : GoTime.Time :=
  match t with
  | Some ts => GoTime.In GoTime.UTC (GoTime.Unix (Seconds ts) (Nanos ts))
  | None => GoTime.In GoTime.UTC (GoTime.Unix 0 0)
  end.

(** [LogSeverity.String]: the name of the enum value, or its number
    when it has none. *)
Definition LogSeverity_String (sev : Z) : string :=
  if sev =? 0 then "DEFAULT" else if sev =? 100 then "DEBUG"
  else if sev =? 200 then "INFO" else if sev =? 300 then "NOTICE"
  else if sev =? 400 then "WARNING" else if sev =? 500 then "ERROR"
  else if sev =? 600 then "CRITICAL" else if sev =? 700 then "ALERT"
  else if sev =? 800 then "EMERGENCY" else pretty sev.

(** The members that [encoding/json] writes for the struct: a field
    tagged [omitempty] is left out when it is empty. *)
Definition omitStr (k s : string) : list (string * doc) :=
  if String.eqb s EmptyString then [] else [(k, DStr s)].

Definition omitMsg (k : string) (o : option (list (string * doc)))
  : list (string * doc) :=
  match o with
  | Some kvs => [(k, DObj kvs)]
  | None => []
  end.

Definition omitInt (k : string) (n : Z) : list (string * doc) :=
  if n =? 0 then [] else [(k, DNum n 0)].

Definition marshalTimestamp (t : Timestamp) : list (string * doc) :=
  omitInt "seconds" (Seconds t) ++ omitInt "nanos" (Nanos t).

Definition marshalAny (a : Any) : list (string * doc) :=
  omitStr "type_url" (TypeUrl a) ++ omitStr "value" (AnyValue a).

(** The [Payload] member: the field has no tag, so it is always
    written, under its Go name, as the wrapper struct it holds. *)
Definition marshalPayload (p : option isLogEntry_Payload) : option doc :=
  match p with
  | None => Some DNull
  | Some (LogEntry_ProtoPayload None) => Some (DObj [("ProtoPayload"%string, DNull)])
  | Some (LogEntry_ProtoPayload (Some a)) =>
      Some (DObj [("ProtoPayload"%string, DObj (marshalAny a))])
  | Some (LogEntry_TextPayload t) => Some (DObj [("TextPayload"%string, DStr t)])
  | Some (LogEntry_JsonPayload None) => Some (DObj [("JsonPayload"%string, DNull)])
  | Some (LogEntry_JsonPayload (Some st)) =>
      match marshalStruct st with
      | Some d => Some (DObj [("JsonPayload"%string, d)])
      | None => None
      end
  end.

(** [json.Marshal(resp)]: the members of the object, or [None] when a
    [MarshalJSON] below it fails. *)
Definition Marshal_LogEntry (x : LogEntry) : option (list (string * doc)) :=
  match marshalPayload (Payload x) with
  | None => None
  | Some p =>
      Some (omitStr "log_name" (LogName x)
            ++ omitMsg "resource" (Resource x)
            ++ [("Payload"%string, p)]
            ++ omitMsg "timestamp" (marshalTimestamp <$> Timestamp_ x)
            ++ omitMsg "receive_timestamp" (marshalTimestamp <$> ReceiveTimestamp x)
            ++ omitInt "severity" (Severity x)
            ++ omitStr "insert_id" (InsertId x)
            ++ omitMsg "http_request" (HttpRequest x)
            ++ (if decide (Labels x = []) then []
                else [("labels"%string, DObj (map (fun kv => (fst kv, DStr (snd kv))) (Labels x)))])
            ++ omitStr "trace" (Trace x)
            ++ omitStr "span_id" (SpanId x)
            ++ (if TraceSampled x then [("trace_sampled"%string, DBool true)] else [])
            ++ omitMsg "operation" (Operation x)
            ++ omitMsg "source_location" (SourceLocation x)
            ++ omitMsg "split" (Split x))
  end.

End Logging.

(** ** [massageEntryLog] *)

Module Normalizer.
Import Json Logging.

Definition massageEntryLog (ck : GoTime.Clock) (resp : LogEntry)
  : outcome (text * string) :=
  let lastTime :=
    GoTime.FormatRFC3339 ck (GoTime.In GoTime.Local (AsTime (GetTimestamp resp))) in
  let severity := LogSeverity_String (GetSeverity resp) in
  let b := Marshal_LogEntry resp in
  let m : gmap string value := ∅ in
  let m := Unmarshal b m in
  let m := <["severity"%string := Str severity]> m in
  let m := <["timestamp"%string := Str lastTime]> m in
  obind
    (if decide (GetJsonPayload resp <> None) then
       obind (assertMapIndex (m !! "Payload"%string) "JsonPayload")
             (fun v => Ret (<["jsonPayload"%string := v]> m))
     else if 0 <? Z.of_nat (String.length (GetTextPayload resp)) then
       obind (assertMapIndex (m !! "Payload"%string) "TextPayload")
             (fun v => Ret (<["textPayload"%string := v]> m))
     else Ret m)
    (fun m =>
       let m := delete "Payload"%string m in
       let m := delete "receive_timestamp"%string m in
       let b := match Marshal m with Some o => Object o | None => Empty end in
       Ret (b, lastTime)).

(** The timestamp of an entry as the normaliser writes it. *)
Definition stampText (ck : GoTime.Clock) (resp : LogEntry) : string :=
GoTime.FormatRFC3339 ck (GoTime.In GoTime.Local (AsTime (GetTimestamp resp))).

(** The payload member a record gets under the key [k]. *)
Definition hoisted (resp : LogEntry) (k : string) : option doc :=
match Payload resp with
| Some (LogEntry_JsonPayload (Some st)) =>
    if String.eqb k "jsonPayload" then marshalStruct st else None
| Some (LogEntry_TextPayload t) =>
    if String.eqb k "textPayload" && negb (String.eqb t "") then Some (DStr t) else None
| _ => None
end.

End Normalizer.

(** ** The reader: [gcpStream] *)

Module Reader.
Import Json Logging Normalizer.

(** A Go [error], by its message. *)
Definition error : Type := string.

(** The value a panic carries, as [recover] sees it: an [error] or
    anything else (then it is shown with [%+v]). *)
Inductive panicValue :=
| ErrorValue (e : error)
| OtherValue (shown : string).

(** The fields of [gcpStream] that are set once, by [MakeGCPReader].
    The embedded struct [reader] is declared in a file that is not among
    the sources; of its fields the code here uses the channel [strChan]
    and the callback [onError], and [onError] below says whether a
    callback is installed.  The two parts that change while the reader
    runs, the flag [stop] and the channel [strChan], are in [World]. *)
Record gcpStream := mkGcpStream {
  projectID : string;
  filter : string;
  freshness : string;
  isTail : bool;
  onError : bool
}.

(** [MakeGCPReader]; the channel it is given, or makes with room for one
    record, starts open in [start]. *)
Definition MakeGCPReader (project filter freshness : string) (onError : bool)
  : gcpStream :=
  {| projectID := project;
     filter := filter;
     freshness := freshness;
     isTail := String.eqb freshness "tail";
     onError := onError |}.

(** What the producer shares with the task that owns the reader:
    [s.stop], whether [strChan] has been closed, and after how many more
    steps of the producer the owner calls [Close] ([None]: it does not).
    A step is a read of [s.stop] or a send on [strChan]. *)
Record World := mkWorld {
  stop : bool;
  closed : bool;
  closeIn : option nat
}.

(** [Close]: [s.stop = true; close(s.strChan)]. *)
Definition Close (w : World) : World :=
  {| stop := true; closed := true; closeIn := None |}.

Definition start (closeIn : option nat) : World :=
  {| stop := false; closed := false; closeIn := closeIn |}.

(** The owner's [Close] takes place before the step it is due at. *)
Definition tick (w : World) : World :=
  match closeIn w with
  | Some O => Close w
  | Some (S n) => {| stop := stop w; closed := closed w; closeIn := Some n |}
  | None => w
  end.

Record ListLogEntriesRequest := mkListRequest {
  ResourceNames : list string;
  Filter : string;
  PageSize : Z
}.

Record TailLogEntriesRequest := mkTailRequest {
  TailResourceNames : list string;
  TailFilter : string
}.

(** What one [ListLogEntries] iterator yields: the entries [it.Next]
    returns, then [iterator.Done] ([None]) or an error. *)
Record Listing := mkListing {
  entries : list LogEntry;
  ending : option error
}.

Inductive TailEnd :=
| EOF
| RecvError (e : error)
| Silent.

Inductive ClientResult :=
| ClientOk
| ClientError (e : error)
| ClientPanic (r : panicValue).

(** The remote side, and the client that reaches it: package
    [internal/gcp] is not among the sources, so how [gcp.LoggingClient]
    ends is given.  [ListLogEntries k req] answers the [k]-th query;
    the tail stream delivers [tailChunks], then ends as [tailEnd] says
    ([Silent]: nothing more ever arrives). *)
Record Backend := mkBackend {
  LoggingClient : ClientResult;
  ListLogEntries : nat -> ListLogEntriesRequest -> Listing;
  TailLogEntries : option error;
  tailSend : TailLogEntriesRequest -> option error;
  tailChunks : list (list LogEntry);
  tailEnd : TailEnd
}.

(** What a run of the producer does, in order. *)
Inductive Event :=
| SawStop
| Built (filter : string)
| Query (req : ListLogEntriesRequest)
| Next (resp : LogEntry)
| Mark (lastTime : string)
| Send (b : text)
| Tail
| Report (err : error).

(** How a run ends: it returns, the process exits, a panic leaves the
    task, it waits for ever, or the fuel of the model ran out. *)
Inductive ending_of (A : Type) : Type :=
| Done (a : A)
| Exited (msg : string)
| Panicked (v : string)
| Blocked
| Unfinished.

Arguments Done {A} a.
Arguments Exited {A} msg.
Arguments Panicked {A} v.
Arguments Blocked {A}.
Arguments Unfinished {A}.

(** A piece of the producer: from the shared state to the events it
    gives rise to, the state it leaves and how it ends. *)
Definition run (A : Type) : Type := World -> list Event * World * ending_of A.

Definition ret {A : Type} (a : A) : run A := fun w => ([], w, Done a).

Definition bind {A B : Type} (m : run A) (k : A -> run B) : run B :=
  fun w =>
    match m w with
    | (t1, w1, Done a) =>
        match k a w1 with
        | (t2, w2, o) => (t1 ++ t2, w2, o)
        end
    | (t1, w1, Exited msg) => (t1, w1, Exited msg)
    | (t1, w1, Panicked v) => (t1, w1, Panicked v)
    | (t1, w1, Blocked) => (t1, w1, Blocked)
    | (t1, w1, Unfinished) => (t1, w1, Unfinished)
    end.

Definition emit (e : Event) : run unit := fun w => ([e], w, Done tt).

Definition stopWith {A : Type} (o : ending_of A) : run A := fun w => ([], w, o).

Definition call {A : Type} (o : outcome A) : run A :=
  match o with
  | Ret a => ret a
  | Exit msg => stopWith (Exited msg)
  | Panic v => stopWith (Panicked v)
  end.

Notation "x <- m ;; k" := (bind m (fun x => k))
  (at level 100, m at next level, right associativity).
Notation "m ;;; k" := (bind m (fun _ => k))
  (at level 100, right associativity).

(** The loop condition [!s.stop]. *)
Definition readStop : run bool :=
  fun w =>
    let w := tick w in
    if stop w then ([SawStop], w, Done true) else ([], w, Done false).

(** [s.strChan <- b]: a send on a closed channel panics.  The wait of
    a send for its receiver is left out: an open channel takes the
    record at once.  A run in which a send waits for ever is a run of
    this model cut short at that send: what is stated below of every
    run says what a run does as far as it gets, and the runs shown on
    examples are those of a receiver that takes every record at
    once. *)
Definition send (b : text) : run unit :=
  fun w =>
    let w := tick w in
    if closed w then ([], w, Panicked "send on closed channel")
    else ([Send b], w, Done tt).

Definition quote : string := String "034"%char EmptyString.

(** [fmt.Sprintf(`timestamp > "%s"`, lastTime)] *)
Definition timestampFilter (lastTime : string) : string :=
  "timestamp > " +:+ quote +:+ lastTime +:+ quote.

(** [fmt.Sprintf(`timestamp > "%s" AND (%s)`, lastTime, s.filter)] *)
Definition timestampAndFilter (lastTime userFilter : string) : string :=
  "timestamp > " +:+ quote +:+ lastTime +:+ quote +:+ " AND (" +:+ userFilter +:+ ")".

Section Session.
Variable ck : GoTime.Clock.
Variable s : gcpStream.
Variable c : Backend.

(** The inner loop of [streamFrom]: every entry of the iterator is
    normalised, moves [lastTime] and is sent. *)
Fixpoint drain (es : list LogEntry) (lastTime : string) : run string :=
  match es with
  | [] => ret lastTime
  | resp :: es' =>
      emit (Next resp) ;;;
      r <- call (massageEntryLog ck resp) ;;
      emit (Mark (snd r)) ;;;
      send (fst r) ;;;
      drain es' (snd r)
  end.

Fixpoint streamFromLoop (fuel k : nat) (lastTime lastFilter : string)
  : run (option error) :=
  match fuel with
  | O => stopWith Unfinished
  | S fuel' =>
      stopped <- readStop ;;
      if (stopped : bool) then ret None
      else
        let filter0 := timestampFilter lastTime in
        emit (Built filter0) ;;;
        if String.eqb filter0 lastFilter then ret None
        else
          let lastFilter := filter0 in
          let filter1 :=
            if 0 <? Z.of_nat (String.length (filter s))
            then timestampAndFilter lastTime (filter s) else filter0 in
          let req := {| ResourceNames := ["projects/" +:+ projectID s];
                        Filter := filter1;
                        PageSize := 100 |} in
          emit (Query req) ;;;
          let it := ListLogEntries c k req in
          lastTime' <- drain (entries it) lastTime ;;
          match ending it with
          | Some err => ret (Some err)
          | None => streamFromLoop fuel' (S k) lastTime' lastFilter
          end
  end.

Definition streamFrom (fuel : nat) : run (option error) :=
  streamFromLoop fuel 0 (freshness s) EmptyString.

(** The [range chunk.Entries] loop of [streamTail].  The two tests on
    [err] inside it read the [err] of the [Recv] just checked, which is
    nil there, so neither branch is ever taken. *)
Fixpoint forward (es : list LogEntry) : run unit :=
  match es with
  | [] => ret tt
  | resp :: es' =>
      r <- call (massageEntryLog ck resp) ;;
      send (fst r) ;;;
      forward es'
  end.

Fixpoint recvLoop (chunks : list (list LogEntry)) : run (option error) :=
  match chunks with
  | [] =>
      match tailEnd c with
      | EOF => ret None
      | RecvError err => ret (Some err)
      | Silent => stopWith Blocked
      end
  | chunk :: rest => forward chunk ;;; recvLoop rest
  end.

Definition streamTail : run (option error) :=
  emit Tail ;;;
  match TailLogEntries c with
  | Some err => ret (Some err)
  | None =>
      let req := {| TailResourceNames := ["projects/" +:+ projectID s];
                    TailFilter := filter s |} in
      match tailSend c req with
      | Some err => ret (Some err)
      | None => recvLoop (tailChunks c)
      end
  end.

(** The body of the goroutine that [StreamInto] starts.  It defers
    only [c.Close()]: nothing on this goroutine recovers, so a panic
    raised in it ends as [Panicked]. *)
Definition producer (fuel : nat) : run unit :=
  err <- (if isTail s then streamTail
          else
            err <- streamFrom fuel ;;
            match err with
            | None => streamTail
            | Some _ => ret err
            end) ;;
  match err with
  | Some e => if onError s then emit (Report e) else ret tt
  | None => ret tt
  end.


End Session.

Definition events {A : Type} (r : list Event * World * ending_of A) : list Event :=
fst (fst r).

Definition world {A : Type} (r : list Event * World * ending_of A) : World :=
snd (fst r).

Definition endOf {A : Type} (r : list Event * World * ending_of A) : ending_of A :=
snd r.

(** A run that does not end with [Done] ends the same way whatever
  follows it. *)
Definition carry {A B : Type} (o : ending_of A) : ending_of B :=
match o with
| Done _ => Unfinished
| Exited msg => Exited msg
| Panicked v => Panicked v
| Blocked => Blocked
| Unfinished => Unfinished
end.

End Reader.

(** ** [CheckAuth] *)

Module Auth.
Import Reader.

(** What the surroundings of [CheckAuth] decide: the client and the
    probe [ListLogs ... it.Next()], the flag [gcp.IsGCloud], how
    [gcp.OAuth()] ends, what [gcloud auth application-default login]
    returns, and what the modal's [Run] returns. *)
Record Env := mkEnv {
  client : option error;
  probe : option error;
  IsGCloud : bool;
  OAuth : outcome unit;
  gcloudLogin : option error;
  modalRun : option error
}.

(** The goroutine of the interactive flow; [app.Stop()] is deferred, so
    it runs when the goroutine returns. *)
Definition acquire (e : Env) : outcome unit :=
  if negb (IsGCloud e) then OAuth e
  else
    match gcloudLogin e with
    | Some err => Fatal err
    | None => Ret tt
    end.

(** [Run] returns an error when the display fails; otherwise it returns
    once the goroutine has stopped the application. *)
Definition CheckAuth (e : Env) : outcome (option error) :=
  let err := match client e with
             | None => probe e
             | Some err => Some err
             end in
  obind
    (match err with
     | Some _ =>
         match modalRun e with
         | Some err' => Panic err'
         | None => acquire e
         end
     | None => Ret tt
     end)
    (fun _ => Ret None).

End Auth.

(** ** Reading a run *)

Module Trace.
Import Json Logging Normalizer Reader.


(** The values [lastTime] is moved to, in order. *)
Fixpoint marks (tr : list Event) : list string :=
  match tr with
  | [] => []
  | Mark l :: r => l :: marks r
  | _ :: r => marks r
  end.

(** The entries the historical iterators return, in order. *)
Fixpoint received (tr : list Event) : list Logging.LogEntry :=
  match tr with
  | [] => []
  | Next e :: r => e :: received r
  | _ :: r => received r
  end.

(** The records sent on the channel, in order. *)
Fixpoint sent (tr : list Event) : list Json.text :=
  match tr with
  | [] => []
  | Send b :: r => b :: sent r
  | _ :: r => sent r
  end.


Definition isBuilt (e : Event) : bool :=
  match e with Built _ => true | _ => false end.

Definition isQuery (e : Event) : bool :=
  match e with Query _ => true | _ => false end.

(** Events of the inner loops: entries, marks and sends only. *)
Definition inner (e : Event) : Prop :=
match e with
| Next _ | Mark _ | Send _ => True
| _ => False
end.

Definition isSend (e : Event) : Prop :=
match e with
| Send _ => True
| _ => False
end.


Definition afterTail (e : Event) : Prop :=
match e with
| Send _ | Report _ => True
| _ => False
end.

Definition isReport (e : Event) : Prop :=
match e with
| Report _ => True
| _ => False
end.





Definition noQuery (e : Event) : Prop :=
match e with
| Query _ | Built _ => False
| _ => True
end.

(** The remote side delivered the entry [resp]: an iterator of
  [ListLogEntries] returned it, or it came in a chunk of the tail
  stream. *)
Definition delivered (c : Backend) (resp : LogEntry) : Prop :=
(exists k req, List.In resp (entries (ListLogEntries c k req)))
\/ (exists chunk, List.In chunk (tailChunks c) /\ List.In resp chunk).

(** A record on the channel is the normalisation of an entry of
  [from]. *)
Definition normalised (ck : GoTime.Clock) (from : LogEntry -> Prop) (e : Event) : Prop :=
match e with
| Send b => exists resp lt, from resp /\ massageEntryLog ck resp = Ret (b, lt)
| _ => True
end.

End Trace.

(** ** Watermarks as instants *)

Module Watermark.
Import GoString GoTime.

(** The offset a zone suffix of RFC 3339 denotes, in seconds. *)
Definition zoneOffset (z : list ascii) : option Z :=
  match z with
  | [c] => if Ascii.eqb c "Z" then Some 0 else None
  | [sg; a; b; c; d; e] =>
      if forallb isDigit [a; b; d; e] && Ascii.eqb c ":" then
        if Ascii.eqb sg "+" then Some (num2 a b * 3600 + num2 d e * 60)
        else if Ascii.eqb sg "-" then Some (- (num2 a b * 3600 + num2 d e * 60))
        else None
      else None
  | _ => None
  end.

(** The instant, in seconds since the Unix epoch, that an RFC 3339
    timestamp without fraction denotes. *)
Definition instantOf (w : string) : option Z :=
  match bytes w with
  | y1 :: y2 :: y3 :: y4 :: c1 :: m1 :: m2 :: c2 :: d1 :: d2 :: c3
      :: h1 :: h2 :: c4 :: i1 :: i2 :: c5 :: s1 :: s2 :: z =>
      if forallb isDigit [y1; y2; y3; y4; m1; m2; d1; d2; h1; h2; i1; i2; s1; s2]
         && Ascii.eqb c1 "-" && Ascii.eqb c2 "-" && Ascii.eqb c3 "T"
         && Ascii.eqb c4 ":" && Ascii.eqb c5 ":"
      then
        match zoneOffset z with
        | Some off =>
            Some (daysOfCivil (num4 y1 y2 y3 y4) (num2 m1 m2) (num2 d1 d2) * 86400
                  + num2 h1 h2 * 3600 + num2 i1 i2 * 60 + num2 s1 s2 - off)
        | None => None
        end
      else None
  | _ => None
  end.



Fixpoint ascending (ts : list Z) : bool :=
  match ts with
  | a :: ((b :: _) as r) => (a <=? b) && ascending r
  | _ => true
  end.


(** The local date of the instant [t] lies in the years 0000 to 9999,
    which RFC 3339 can spell, and the zone is a whole number of minutes
    less than a day away from UTC. *)
Definition spellable (ck : Clock) (t : Z) : bool :=
  (-62167219200 <=? t + zone ck t) && (t + zone ck t <? 253402300800)
  && (zone ck t mod 60 =? 0) && (-86400 <? zone ck t) && (zone ck t <? 86400).

End Watermark.

(** ** Relative time ranges *)

Module Durations.
Import GoString GoTime TimeRange.

(** The number a run of decimal digits spells. *)
Definition count (ds : list ascii) : Z :=
  fold_left (fun acc c => 10 * acc + digitVal c) ds 0.

(** The seconds in one unit of a relative time range. *)
Definition unitSeconds (u : ascii) : Z :=
  if Ascii.eqb u "s" then 1 else if Ascii.eqb u "m" then 60
  else if Ascii.eqb u "h" then 3600 else if Ascii.eqb u "d" then 86400 else 0.

End Durations.

(** ** The members of a record *)

Module Record.
Import Json Logging Normalizer.

(** The value the text of a JSON object gives the key [k]: that of its
    last member of that name. *)
Definition member (k : string) (kvs : list (string * doc)) : option doc :=
  snd <$> find (fun kv => String.eqb (fst kv) k) (rev kvs).

(** The keys [massageEntryLog] writes or deletes. *)
Definition rewritten : list string :=
  ["severity"; "timestamp"; "jsonPayload"; "textPayload"; "Payload";
   "receive_timestamp"]%string.

(** A document that passes through a [float64] as it is: each of its
    numbers is an integer of magnitude at most 2^53, which
    [json.Unmarshal] stores exactly and [json.Marshal] writes back
    digit for digit. *)
Fixpoint plain (d : doc) : bool :=
  match d with
  | DNum m e => (e =? 0) && (Z.abs m <=? 2 ^ 53)
  | DArr l => forallb plain l
  | DObj kvs => forallb (fun kv => plain (snd kv)) kvs
  | _ => true
  end.

(** The record [massageEntryLog] makes of an entry, if it makes one. *)
Definition record (ck : GoTime.Clock) (resp : LogEntry) : option text :=
  match massageEntryLog ck resp with
  | Ret r => Some (fst r)
  | _ => None
  end.

End Record.

(** ** The requests of a session *)

Module Requests.
Import Reader Trace.

(** The request an iteration of the historical loop makes when its
    [lastTime] is [lt]. *)
Definition request (s : gcpStream) (lt : string) : ListLogEntriesRequest :=
  {| ResourceNames := ["projects/" +:+ projectID s];
     Filter := if 0 <? Z.of_nat (String.length (filter s))
               then timestampAndFilter lt (filter s) else timestampFilter lt;
     PageSize := 100 |}.

(** Every filter of [tr] is built on the [lastTime] in force, and every
    query is the request for it: [lt] at first, then the latest value
    [lastTime] was moved to. *)
Fixpoint asksAfter (s : gcpStream) (lt : string) (tr : list Event) : Prop :=
  match tr with
  | [] => True
  | Mark l :: r => asksAfter s l r
  | Built f :: r => f = timestampFilter lt /\ asksAfter s lt r
  | Query req :: r => req = request s lt /\ asksAfter s lt r
  | _ :: r => asksAfter s lt r
  end.

(** The requests made, in order. *)
Fixpoint queries (tr : list Event) : list ListLogEntriesRequest :=
  match tr with
  | [] => []
  | Query req :: r => req :: queries r
  | _ :: r => queries r
  end.

End Requests.

(** ** What a session delivers *)

Module Delivery.
Import Json Logging Normalizer Reader Trace Record.

(** The records [bs] were made of the entries [es], one for one and in
    order; unless [whole], the last entry may be without its record. *)
Definition recordsOf (ck : GoTime.Clock) (whole : bool) (bs : list text)
  (es : list LogEntry) : Prop :=
  exists es1 es2,
    es = es1 ++ es2 /\ map Some bs = map (record ck) es1
    /\ (length es2 <= 1)%nat /\ (whole = true -> es2 = []).

(** The run returned to its caller. *)
Definition returned {A : Type} (o : ending_of A) : bool :=
  match o with
  | Done _ => true
  | _ => false
  end.


(** The sends the channel still takes: none once it is closed, [n] when
    the owner closes it after [n] more steps, any number ([None])
    otherwise. *)
Definition room (w : World) : option nat :=
  if closed w then Some O else closeIn w.

(** A piece of the producer sends no more than the channel takes. *)
Definition withinRoom {A : Type} (m : run A) : Prop :=
  forall w n, room w = Some n ->
    exists n', room (world (m w)) = Some n'
      /\ (length (sent (events (m w))) + n' <= n)%nat.

End Delivery.

(** ** White space *)

Module Blank.
Import GoString.

(** A string of ASCII white space: tabs, line feeds, vertical tabs,
    form feeds, carriage returns and spaces. *)
Definition blank (s : string) : bool :=
  forallb (fun c => asciiSpace (byte_val c)) (bytes s).

(** Whether three bytes are the UTF-8 form of a white-space rune. *)
Definition space3 (c d e : Z) : bool :=
  ((c =? 225) && (d =? 154) && (e =? 128))
  || ((c =? 226) && (d =? 128)
      && (((128 <=? e) && (e <=? 138)) || (e =? 168) || (e =? 169) || (e =? 175)))
  || ((c =? 226) && (d =? 129) && (e =? 159))
  || ((c =? 227) && (d =? 128) && (e =? 128)).

(** Whether two bytes are the UTF-8 form of a white-space rune. *)
Definition space2 (c d : Z) : bool := (c =? 194) && ((d =? 133) || (d =? 160)).

End Blank.

(** ** Inputs the statements below are tried on *)

Module Examples.
Import GoTime Json Logging Reader.

(** A clock on UTC and one an hour east of it, both at
    2024-01-02T03:04:05Z. *)
Definition utc : Clock := mkClock 1704164645 0 (fun _ => 0).
Definition east : Clock := mkClock 1704164645 0 (fun _ => 3600).

Definition entry (t : Z) (p : option isLogEntry_Payload) : LogEntry :=
  {| LogName := "projects/p/logs/app";
     Resource := None;
     Payload := p;
     Timestamp_ := Some (mkTimestamp t 0);
     ReceiveTimestamp := Some (mkTimestamp (t + 1) 0);
     Severity := 200;
     InsertId := "a1";
     HttpRequest := None;
     Labels := [];
     Operation := None;
     Trace := EmptyString;
     SpanId := EmptyString;
     TraceSampled := false;
     SourceLocation := None;
     Split := None |}.

Definition textEntry (t : Z) (msg : string) : LogEntry :=
  entry t (Some (LogEntry_TextPayload msg)).

Definition jsonEntry (t : Z) (st : Struct) : LogEntry :=
  entry t (Some (LogEntry_JsonPayload (Some st))).

(** An entry whose text payload is empty, one with a proto payload, and
    one whose structured payload holds a value with no kind set. *)
Definition emptyText : LogEntry := textEntry 10 EmptyString.

Definition protoEntry : LogEntry :=
  entry 10 (Some (LogEntry_ProtoPayload (Some (mkAny "type.googleapis.com/audit" "AAEC")))).

Definition unsetKind : LogEntry := jsonEntry 10 [("k"%string, KindUnset)].

(** A remote side that answers the [k]-th query with the [k]-th
    listing, and an empty listing afterwards. *)
Definition remote (ps : list Listing) (chunks : list (list LogEntry)) (e : TailEnd)
  : Backend :=
  {| LoggingClient := ClientOk;
     ListLogEntries := fun k _ => nth k ps (mkListing [] None);
     TailLogEntries := None;
     tailSend := fun _ => None;
     tailChunks := chunks;
     tailEnd := e |}.

Definition hist : gcpStream := MakeGCPReader "p" EmptyString "1970-01-01T00:00:00Z" true.

Definition live : gcpStream := MakeGCPReader "p" EmptyString "tail" true.

(** Entries at 10 s and 20 s, then nothing new; one more entry on the
    tail stream. *)
Definition inOrder : Backend :=
  remote [mkListing [textEntry 10 "a"; textEntry 20 "b"] None]
         [[textEntry 30 "c"]] EOF.



(** Two chunks of one entry each on the tail stream. *)
Definition twoChunks : Backend :=
  remote [] [[textEntry 30 "c"]; [textEntry 31 "d"]] Silent.

End Examples.

(** ** Tactics *)

(** Linear arithmetic with division and remainder by constants. *)
Ltac dlia := Z.to_euclidean_division_equations; lia.

Ltac months H :=
  destruct H as [-> | [-> | [-> | [-> | [-> | [-> | [-> | [-> | [-> | [-> | [-> | ->]]]]]]]]]]].

Ltac ltbs :=
  repeat match goal with
    | |- context [?a <? ?b] => destruct (Z.ltb_spec a b); try lia
    end.

Ltac atoms H :=
  cbn [forallb] in H; rewrite ?andb_true_iff in H; decompose [and] H; clear H;
  repeat match goal with E : _ = true |- _ => rewrite E; clear E end.

(** The cases of a byte matched against a few literals. *)
Ltac zcases c :=
  destruct c as [|c|c]; try reflexivity;
  do 8 (try (destruct c as [c|c|]; try reflexivity)).

(** * Properties *)

(** ** Digits *)

Module GoTimeFacts.
Import GoString GoTime.

Lemma digit_cases d : 0 <= d <= 9 ->
  d = 0 \/ d = 1 \/ d = 2 \/ d = 3 \/ d = 4 \/ d = 5 \/ d = 6 \/ d = 7 \/ d = 8 \/ d = 9.
Proof. lia. Qed.

Lemma digitVal_utod d : 0 <= d <= 9 -> digitVal (utod d) = d.
Proof.
  intros H. destruct (digit_cases d H) as [-> | [-> | [-> | [-> | [-> | [-> | [-> | [-> | [-> | ->]]]]]]]]];
    reflexivity.
Qed.

Lemma isDigit_utod d : 0 <= d <= 9 -> isDigit (utod d) = true.
Proof.
  intros H. destruct (digit_cases d H) as [-> | [-> | [-> | [-> | [-> | [-> | [-> | [-> | [-> | ->]]]]]]]]];
    reflexivity.
Qed.

Lemma isDigit_range c : isDigit c = true -> 0 <= digitVal c <= 9.
Proof.
  unfold isDigit, digitVal. intros H. apply andb_prop in H as [H1 H2].
  apply Z.leb_le in H1, H2. lia.
Qed.

Lemma utod_digitVal c : isDigit c = true -> utod (digitVal c) = c.
Proof.
  intros H. pose proof (isDigit_range c H) as R.
  unfold utod, digitVal, byte_of, byte_val in *.
  replace (48 + (Z.of_nat (nat_of_ascii c) - 48)) with (Z.of_nat (nat_of_ascii c)) by lia.
  rewrite Nat2Z.id. apply ascii_nat_embedding.
Qed.

Lemma appendInt2 x : 0 <= x < 100 ->
  appendInt x 2 = String (utod (x / 10)) (String (utod (x mod 10)) EmptyString).
Proof.
  intros H. unfold appendInt.
  rewrite Z.abs_eq by lia.
  destruct (Z.ltb_spec x 0); [lia|].
  destruct (Z.ltb_spec x 100); [|lia]. reflexivity.
Qed.

Lemma appendInt4 x : 0 <= x < 10000 ->
  appendInt x 4 =
    String (utod (x / 1000)) (String (utod (x / 100 mod 10))
      (String (utod (x / 10 mod 10)) (String (utod (x mod 10)) EmptyString))).
Proof.
  intros H. unfold appendInt.
  rewrite Z.abs_eq by lia.
  destruct (Z.ltb_spec x 0); [lia|].
  destruct (Z.ltb_spec x 10000); [|lia]. reflexivity.
Qed.

Lemma num2_digits x : 0 <= x < 100 -> num2 (utod (x / 10)) (utod (x mod 10)) = x.
Proof.
  intros H. unfold num2. rewrite !digitVal_utod by dlia. dlia.
Qed.

Lemma num4_digits x : 0 <= x < 10000 ->
  num4 (utod (x / 1000)) (utod (x / 100 mod 10)) (utod (x / 10 mod 10)) (utod (x mod 10)) = x.
Proof.
  intros H. unfold num4. rewrite !digitVal_utod by dlia. dlia.
Qed.

Lemma digits_num2 a b : isDigit a = true -> isDigit b = true ->
  0 <= num2 a b < 100 /\ utod (num2 a b / 10) = a /\ utod (num2 a b mod 10) = b.
Proof.
  intros Ha Hb. pose proof (isDigit_range a Ha). pose proof (isDigit_range b Hb).
  unfold num2. split; [lia|].
  replace ((10 * digitVal a + digitVal b) / 10) with (digitVal a) by dlia.
  replace ((10 * digitVal a + digitVal b) mod 10) with (digitVal b) by dlia.
  split; apply utod_digitVal; assumption.
Qed.

Lemma digits_num4 a b c d :
  isDigit a = true -> isDigit b = true -> isDigit c = true -> isDigit d = true ->
  0 <= num4 a b c d < 10000 /\ utod (num4 a b c d / 1000) = a
  /\ utod (num4 a b c d / 100 mod 10) = b /\ utod (num4 a b c d / 10 mod 10) = c
  /\ utod (num4 a b c d mod 10) = d.
Proof.
  intros Ha Hb Hc Hd.
  pose proof (isDigit_range a Ha). pose proof (isDigit_range b Hb).
  pose proof (isDigit_range c Hc). pose proof (isDigit_range d Hd).
  unfold num4. split; [lia|].
  set (n := 1000 * digitVal a + 100 * digitVal b + 10 * digitVal c + digitVal d).
  replace (n / 1000) with (digitVal a) by (subst n; dlia).
  replace (n / 100 mod 10) with (digitVal b) by (subst n; dlia).
  replace (n / 10 mod 10) with (digitVal c) by (subst n; dlia).
  replace (n mod 10) with (digitVal d) by (subst n; dlia).
  repeat split; apply utod_digitVal; assumption.
Qed.

End GoTimeFacts.

(** ** The calendar *)

Module CalendarFacts.
Import GoString GoTime.

Lemma leapDay_cases y : leapDay y = 0 \/ leapDay y = 1.
Proof. unfold leapDay. destruct (isLeap y); auto. Qed.

Lemma mod_4_100 y : y mod 100 = 0 -> y mod 4 = 0.
Proof. intros. dlia. Qed.

Lemma mod_100_400 y : y mod 400 = 0 -> y mod 100 = 0.
Proof. intros. dlia. Qed.

Lemma daysBeforeYear_step y :
  daysBeforeYear (y + 1) = daysBeforeYear y + 365 + leapDay y.
Proof.
  unfold daysBeforeYear, leapDay, isLeap.
  pose proof (mod_4_100 y). pose proof (mod_100_400 y).
  destruct (Z.eqb_spec (y mod 4) 0), (Z.eqb_spec (y mod 100) 0),
    (Z.eqb_spec (y mod 400) 0); cbn [andb orb negb]; try tauto; dlia.
Qed.

Lemma daysBeforeYear_lo y : 146097 * y - 396 <= 400 * daysBeforeYear y.
Proof. unfold daysBeforeYear. dlia. Qed.

Lemma daysBeforeYear_hi y : 400 * daysBeforeYear y <= 146097 * y + 699.
Proof. unfold daysBeforeYear. dlia. Qed.

Lemma yearOfDay_bounds n :
  daysBeforeYear (yearOfDay n) <= n < daysBeforeYear (yearOfDay n + 1).
Proof.
  unfold yearOfDay.
  set (e := 400 * n / 146097).
  pose proof (daysBeforeYear_lo e). pose proof (daysBeforeYear_hi e).
  pose proof (daysBeforeYear_step e).
  pose proof (daysBeforeYear_lo (e + 1)). pose proof (daysBeforeYear_hi (e + 1)).
  pose proof (daysBeforeYear_step (e + 1)).
  pose proof (daysBeforeYear_lo (e - 1)). pose proof (daysBeforeYear_hi (e - 1)).
  pose proof (daysBeforeYear_step (e - 1)).
  replace (e - 1 + 1) with e in * by lia.
  pose proof (leapDay_cases e). pose proof (leapDay_cases (e - 1)).
  pose proof (leapDay_cases (e + 1)).
  assert (146097 * e <= 400 * n < 146097 * (e + 1)) by (subst e; dlia).
  destruct (Z.ltb_spec n (daysBeforeYear e)).
  - replace (e - 1 + 1) with e by lia. lia.
  - destruct (Z.leb_spec (daysBeforeYear (e + 1)) n); lia.
Qed.

Lemma daysBeforeYear_mono a b : a <= b -> daysBeforeYear a <= daysBeforeYear b.
Proof.
  intros H. pose proof (daysBeforeYear_lo b). pose proof (daysBeforeYear_hi a).
  destruct (Z.eq_dec a b) as [->|]; [lia|].
  destruct (Z.eq_dec (a + 1) b) as [<-|].
  { rewrite daysBeforeYear_step. pose proof (leapDay_cases a). lia. }
  destruct (Z.eq_dec (a + 2) b) as [<-|]; [|lia].
  replace (a + 2) with (a + 1 + 1) by lia. rewrite !daysBeforeYear_step.
  pose proof (leapDay_cases a). pose proof (leapDay_cases (a + 1)). lia.
Qed.

Lemma yearOfDay_unique y n :
  daysBeforeYear y <= n < daysBeforeYear (y + 1) -> yearOfDay n = y.
Proof.
  intros H. pose proof (yearOfDay_bounds n) as B.
  destruct (Z.lt_trichotomy (yearOfDay n) y) as [L | [E | G]]; [|exact E|].
  - pose proof (daysBeforeYear_mono (yearOfDay n + 1) y ltac:(lia)). lia.
  - pose proof (daysBeforeYear_mono (y + 1) (yearOfDay n) ltac:(lia)). lia.
Qed.

Lemma month_cases m : 1 <= m <= 12 ->
  m = 1 \/ m = 2 \/ m = 3 \/ m = 4 \/ m = 5 \/ m = 6 \/ m = 7 \/ m = 8 \/ m = 9
  \/ m = 10 \/ m = 11 \/ m = 12.
Proof. lia. Qed.

(** The day of the year of a valid date lies in its year. *)
Lemma yday_range y m d : 1 <= m <= 12 -> 1 <= d <= daysIn m y ->
  0 <= daysBefore m y + (d - 1) < 365 + leapDay y.
Proof.
  intros Hm Hd. pose proof (leapDay_cases y) as L.
  pose proof (month_cases m Hm) as C. unfold daysBefore, daysIn in *.
  months C; cbn in Hd |- *; lia.
Qed.

Lemma monthOfYday_daysBefore y m d : 1 <= m <= 12 -> 1 <= d <= daysIn m y ->
  monthOfYday y (daysBefore m y + (d - 1)) = m.
Proof.
  intros Hm Hd. pose proof (leapDay_cases y) as L.
  pose proof (month_cases m Hm) as C. unfold daysBefore, daysIn, monthOfYday in *.
  months C; cbn in Hd |- *; ltbs; reflexivity.
Qed.

Lemma civilOfDays_daysOfCivil y m d : 1 <= m <= 12 -> 1 <= d <= daysIn m y ->
  civilOfDays (daysOfCivil y m d) = (y, m, d).
Proof.
  intros Hm Hd. unfold civilOfDays, daysOfCivil.
  pose proof (yday_range y m d Hm Hd) as R.
  replace (daysBeforeYear y + daysBefore m y + (d - 1) - epochDays + epochDays)
    with (daysBeforeYear y + (daysBefore m y + (d - 1))) by lia.
  rewrite (yearOfDay_unique y) by (rewrite daysBeforeYear_step; lia).
  replace (daysBeforeYear y + (daysBefore m y + (d - 1)) - daysBeforeYear y)
    with (daysBefore m y + (d - 1)) by lia.
  rewrite monthOfYday_daysBefore by assumption.
  f_equal. lia.
Qed.

(** Every day is the day of one month of its year. *)
Lemma monthOfYday_spec y yd : 0 <= yd < 365 + leapDay y ->
  let m := monthOfYday y yd in
  1 <= m <= 12 /\ 1 <= yd - daysBefore m y + 1 <= 31.
Proof.
  intros H. pose proof (leapDay_cases y) as L. cbv zeta.
  unfold monthOfYday. ltbs; cbn; lia.
Qed.

Lemma daysOfCivil_civilOfDays n :
  let '(y, m, d) := civilOfDays n in
  daysOfCivil y m d = n /\ 1 <= m <= 12 /\ 1 <= d <= 31
  /\ daysBeforeYear y <= n + epochDays < daysBeforeYear (y + 1).
Proof.
  unfold civilOfDays, daysOfCivil.
  pose proof (yearOfDay_bounds (n + epochDays)) as B.
  set (y := yearOfDay (n + epochDays)) in *.
  rewrite daysBeforeYear_step in B.
  pose proof (monthOfYday_spec y (n + epochDays - daysBeforeYear y) ltac:(lia)) as M.
  cbv zeta in M. rewrite daysBeforeYear_step. split; [lia|]. split; [tauto|]. split; [tauto|lia].
Qed.

Lemma civilOfDays_year n : - epochDays <= n < 2932897 ->
  0 <= fst (fst (civilOfDays n)) <= 9999.
Proof.
  intros H. pose proof (daysOfCivil_civilOfDays n) as C.
  destruct (civilOfDays n) as [[y m] d]. cbn. destruct C as (_ & _ & _ & B).
  unfold epochDays in *.
  destruct (Z_lt_le_dec y 0).
  - pose proof (daysBeforeYear_mono (y + 1) 0 ltac:(lia)) as M.
    change (daysBeforeYear 0) with 0 in M. lia.
  - destruct (Z_lt_le_dec 9999 y); [|lia].
    pose proof (daysBeforeYear_mono 10000 y ltac:(lia)) as M.
    change (daysBeforeYear 10000) with 3652425 in M. lia.
Qed.

End CalendarFacts.

(** ** Formatting *)

Module FormatFacts.
Import GoString GoTime GoTimeFacts CalendarFacts.

Lemma of_bytes_bytes s : of_bytes (bytes s) = s.
Proof. induction s as [|c s IH]; cbn; [reflexivity|]. now rewrite IH. Qed.

Lemma bytes_append a b : bytes (a +:+ b) = bytes a ++ bytes b.
Proof.
  induction a as [|c a IH]; [reflexivity|].
  change (c :: bytes (a +:+ b) = c :: bytes a ++ bytes b). now rewrite IH.
Qed.

Lemma append_assoc (a b c : string) : (a +:+ b) +:+ c = a +:+ (b +:+ c).
Proof.
  induction a as [|x a IH]; [reflexivity|].
  change (String x ((a +:+ b) +:+ c) = String x (a +:+ b +:+ c)). now rewrite IH.
Qed.

Lemma FormatRFC3339_civil ck t :
  let abs := sec t + offsetOf ck t in
  let '(y, m, d) := civilOfDays (abs / 86400) in
  let sod := abs mod 86400 in
  FormatRFC3339 ck t =
    civilText y m d (sod / 3600) (sod mod 3600 / 60) (sod mod 60)
      +:+ zoneSuffix (offsetOf ck t).
Proof.
  cbv zeta. unfold FormatRFC3339.
  destruct (civilOfDays ((sec t + offsetOf ck t) / 86400)) as [[y m] d].
  unfold civilText.
  repeat rewrite append_assoc. reflexivity.
Qed.

Lemma civilText_digits y m d h mi s :
  0 <= y < 10000 -> 0 <= m < 100 -> 0 <= d < 100 -> 0 <= h < 100 ->
  0 <= mi < 100 -> 0 <= s < 100 ->
  civilText y m d h mi s =
    of_bytes [utod (y / 1000); utod (y / 100 mod 10); utod (y / 10 mod 10); utod (y mod 10);
              "-"%char; utod (m / 10); utod (m mod 10);
              "-"%char; utod (d / 10); utod (d mod 10);
              "T"%char; utod (h / 10); utod (h mod 10);
              ":"%char; utod (mi / 10); utod (mi mod 10);
              ":"%char; utod (s / 10); utod (s mod 10)].
Proof.
  intros. unfold civilText.
  rewrite appendInt4 by assumption. rewrite !appendInt2 by assumption. reflexivity.
Qed.

(** A time of day, in seconds, and its hour, minute and second. *)
Lemma clock_fields sod : 0 <= sod < 86400 ->
  0 <= sod / 3600 < 24 /\ 0 <= sod mod 3600 / 60 < 60 /\ 0 <= sod mod 60 < 60
  /\ sod / 3600 * 3600 + sod mod 3600 / 60 * 60 + sod mod 60 = sod.
Proof. intros. dlia. Qed.

Lemma clock_of_fields d h mi s : 0 <= h < 24 -> 0 <= mi < 60 -> 0 <= s < 60 ->
  let abs := d * 86400 + h * 3600 + mi * 60 + s in
  abs / 86400 = d /\ abs mod 86400 / 3600 = h /\ abs mod 86400 mod 3600 / 60 = mi
  /\ abs mod 86400 mod 60 = s.
Proof. intros. cbv zeta. dlia. Qed.

Lemma zoneSuffix_0 : zoneSuffix 0 = "Z"%string.
Proof. reflexivity. Qed.

(** Formatting what [Parse] built gives the same digits back. *)
Lemma FormatRFC3339_Date ck y m d h mi s :
  0 <= y < 10000 -> 1 <= m <= 12 -> 1 <= d <= daysIn m y ->
  0 <= h < 24 -> 0 <= mi < 60 -> 0 <= s < 60 ->
  FormatRFC3339 ck (Date y m d h mi s) = civilText y m d h mi s +:+ "Z".
Proof.
  intros Hy Hm Hd Hh Hmi Hs.
  pose proof (FormatRFC3339_civil ck (Date y m d h mi s)) as F. cbv zeta in F.
  unfold Date, offsetOf in F. cbn [sec loc] in F.
  rewrite Z.add_0_r in F.
  destruct (clock_of_fields (daysOfCivil y m d) h mi s Hh Hmi Hs) as (E1 & E2 & E3 & E4).
  rewrite E1, E2, E3, E4 in F.
  rewrite civilOfDays_daysOfCivil in F by assumption.
  exact F.
Qed.

End FormatFacts.

(** ** [ParseFrom] *)

Module TimeRangeFacts.
Import GoString GoTime GoTimeFacts CalendarFacts FormatFacts TimeRange Watermark.

Lemma fields_shape s f : fields s = Some f ->
  exists y1 y2 y3 y4 m1 m2 d1 d2 h1 h2 i1 i2 s1 s2,
    bytes s = laidOut y1 y2 y3 y4 m1 m2 d1 d2 h1 h2 i1 i2 s1 s2
    /\ forallb isDigit [y1; y2; y3; y4; m1; m2; d1; d2; h1; h2; i1; i2; s1; s2] = true
    /\ f = (num4 y1 y2 y3 y4, num2 m1 m2, num2 d1 d2, num2 h1 h2, num2 i1 i2, num2 s1 s2).
Proof.
  unfold fields.
  destruct (bytes s) as [|y1 [|y2 [|y3 [|y4 [|c1 [|m1 [|m2 [|c2 [|d1 [|d2 [|c3 [|h1 [|h2
    [|c4 [|i1 [|i2 [|c5 [|s1 [|s2 [|x r]]]]]]]]]]]]]]]]]]]]; try discriminate.
  destruct (forallb isDigit _ && _ && _ && _ && _ && _) eqn:E; [|discriminate].
  intros [= <-].
  do 5 (apply andb_prop in E as [E ?]).
  repeat match goal with H : Ascii.eqb _ _ = true |- _ => apply Ascii.eqb_eq in H; subst end.
  exists y1, y2, y3, y4, m1, m2, d1, d2, h1, h2, i1, i2, s1, s2.
  split; [reflexivity|]. split; [exact E | reflexivity].
Qed.

Lemma regD_fields s : regD s = true <-> is_Some (fields s).
Proof.
  unfold regD, fields.
  destruct (bytes s) as [|y1 [|y2 [|y3 [|y4 [|c1 [|m1 [|m2 [|c2 [|d1 [|d2 [|c3 [|h1 [|h2
    [|c4 [|i1 [|i2 [|c5 [|s1 [|s2 [|x r]]]]]]]]]]]]]]]]]]]];
    try (split; [discriminate | intros [? [=]]]).
  split.
  - intros R. cbn [forallb]. atoms R. cbn. eauto.
  - intros [f F].
    destruct (forallb isDigit _ && _ && _ && _ && _ && _) eqn:E; [|discriminate].
    cbn [forallb]. atoms E. reflexivity.
Qed.

Lemma isDigit_not_unit c : isDigit c = true -> isUnit c = false.
Proof.
  intros H. unfold isUnit.
  destruct (Ascii.eqb_spec c "s") as [->|]; [discriminate H|].
  destruct (Ascii.eqb_spec c "m") as [->|]; [discriminate H|].
  destruct (Ascii.eqb_spec c "d") as [->|]; [discriminate H|].
  destruct (Ascii.eqb_spec c "h") as [->|]; [discriminate H|].
  reflexivity.
Qed.

(** A string of that layout is neither [tail] nor a duration. *)
Lemma laidOut_not_relative s f : fields s = Some f ->
  String.eqb s "tail" = false /\ regF s = false.
Proof.
  intros H. destruct (fields_shape s f H)
    as (y1 & y2 & y3 & y4 & m1 & m2 & d1 & d2 & h1 & h2 & i1 & i2 & s1 & s2 & B & D & _).
  split.
  - destruct (String.eqb_spec s "tail") as [->|]; [discriminate B | reflexivity].
  - unfold regF. rewrite B. cbn [laidOut rev app].
    cbn [forallb] in D. 
    repeat (apply andb_prop in D as [? D]).
    rewrite (isDigit_not_unit s2) by assumption. reflexivity.
Qed.

Lemma inRange_bounds y m d h mi s : inRange (y, m, d, h, mi, s) = true ->
  1 <= m <= 12 /\ h < 24 /\ mi < 60 /\ s < 60 /\ 1 <= d <= daysIn m y.
Proof.
  unfold inRange. intros H.
  repeat (apply andb_prop in H as [H ?]).
  repeat match goal with
    | H : (_ <=? _) = true |- _ => apply Z.leb_le in H
    | H : (_ <? _) = true |- _ => apply Z.ltb_lt in H
    end. lia.
Qed.

Lemma num2_nonneg a b : isDigit a = true -> isDigit b = true -> 0 <= num2 a b < 100.
Proof. intros Ha Hb. apply (digits_num2 a b Ha Hb). Qed.

(** What [ParseFrom] does on a string of the layout [2006-01-02T15:04:05]:
    with fields in range it returns the same date and time followed by
    [Z], the instant at which clocks on UTC show them; otherwise it ends
    the process. *)
Lemma ParseFrom_laidOut ck str f :
  fields (TrimSpace str) = Some f ->
  if inRange f
  then ParseFrom ck str = Ret (TrimSpace str +:+ "Z")
       /\ (let '(y, m, d, h, mi, s) := f in
           instantOf (TrimSpace str +:+ "Z") = Some (sec (Date y m d h mi s)))
  else ParseFrom ck str = Exit "Invalid parameter for 'from' flag - bad format: ".
Proof.
  intros H. unfold ParseFrom.
  destruct (laidOut_not_relative _ _ H) as [E1 E2]. rewrite E1, E2.
  rewrite (proj2 (regD_fields _)) by eauto.
  unfold Parse. rewrite H.
  destruct (fields_shape _ _ H)
    as (y1 & y2 & y3 & y4 & m1 & m2 & d1 & d2 & h1 & h2 & i1 & i2 & s1 & s2 & B & D & ->).
  destruct (inRange _) eqn:R; [|reflexivity].
  apply inRange_bounds in R as (Rm & Rh & Rmi & Rs & Rd).
  pose proof D as D'. cbn [forallb] in D'.
  repeat (apply andb_prop in D' as [? D']).
  pose proof (digits_num4 y1 y2 y3 y4) as (Ny & Y1 & Y2 & Y3 & Y4); try assumption.
  pose proof (digits_num2 m1 m2) as (Nm & M1 & M2); try assumption.
  pose proof (digits_num2 d1 d2) as (Nd & D1 & D2); try assumption.
  pose proof (digits_num2 h1 h2) as (Nh & Hh1 & Hh2); try assumption.
  pose proof (digits_num2 i1 i2) as (Ni & I1 & I2); try assumption.
  pose proof (digits_num2 s1 s2) as (Ns & S1 & S2); try assumption.
  assert (T : civilText (num4 y1 y2 y3 y4) (num2 m1 m2) (num2 d1 d2) (num2 h1 h2)
                (num2 i1 i2) (num2 s1 s2) = TrimSpace str).
  { rewrite civilText_digits by lia.
    rewrite Y1, Y2, Y3, Y4, M1, M2, D1, D2, Hh1, Hh2, I1, I2, S1, S2.
    rewrite <- (of_bytes_bytes (TrimSpace str)), B. reflexivity. }
  split.
  - rewrite FormatRFC3339_Date by lia. now rewrite T.
  - unfold instantOf. rewrite bytes_append, B. cbn [laidOut app bytes].
    rewrite D. cbn. f_equal. unfold Date. cbn [sec]. lia.
Qed.

End TimeRangeFacts.

(** ** Reading a formatted instant back *)

Module WatermarkFacts.
Import GoString GoTime GoTimeFacts CalendarFacts FormatFacts TimeRange Watermark.

Lemma bytes_of_bytes l : bytes (of_bytes l) = l.
Proof. induction l as [|c l IH]; [reflexivity|]. cbn. now rewrite IH. Qed.

Lemma zoneOffset_zoneSuffix off :
  off mod 60 = 0 -> -86400 < off < 86400 ->
  zoneOffset (bytes (zoneSuffix off)) = Some off.
Proof.
  intros M R. unfold zoneSuffix.
  destruct (Z.eqb_spec off 0) as [->|N]; [reflexivity|].
  set (z := Z.quot off 60).
  assert (Hz : off = 60 * z) by (subst z; dlia).
  assert (Ha : 0 <= Z.abs z / 60 < 100) by dlia.
  assert (Hb : 0 <= Z.abs z mod 60 < 100) by dlia.
  rewrite !appendInt2 by assumption.
  destruct (Z.ltb_spec z 0).
  - rewrite !bytes_append. cbn [bytes app]. unfold zoneOffset.
    cbn [forallb]. rewrite !isDigit_utod by dlia. cbn.
    rewrite !num2_digits by assumption. f_equal. dlia.
  - rewrite !bytes_append. cbn [bytes app]. unfold zoneOffset.
    cbn [forallb]. rewrite !isDigit_utod by dlia. cbn.
    rewrite !num2_digits by assumption. f_equal. dlia.
Qed.

(** An instant whose local date RFC 3339 can spell is read back from
    its formatted text. *)
Lemma instantOf_FormatRFC3339 ck t ns :
  spellable ck t = true ->
  instantOf (FormatRFC3339 ck (mkTime t ns Local)) = Some t.
Proof.
  unfold spellable. intros S.
  repeat (apply andb_prop in S as [S ?]).
  repeat match goal with
    | H : (_ <=? _) = true |- _ => apply Z.leb_le in H
    | H : (_ <? _) = true |- _ => apply Z.ltb_lt in H
    | H : (_ =? _) = true |- _ => apply Z.eqb_eq in H
    end.
  pose proof (FormatRFC3339_civil ck (mkTime t ns Local)) as F. cbv zeta in F.
  unfold offsetOf in F. cbn [sec loc] in F.
  set (off := zone ck t) in *. set (abs := t + off) in *.
  pose proof (daysOfCivil_civilOfDays (abs / 86400)) as C.
  pose proof (civilOfDays_year (abs / 86400)) as Y.
  destruct (civilOfDays (abs / 86400)) as [[y m] d]. cbn [fst] in Y.
  destruct C as (C & Cm & Cd & _).
  assert (Hy : 0 <= y <= 9999) by (apply Y; unfold epochDays; dlia).
  destruct (clock_fields (abs mod 86400)) as (Kh & Km & Ks & K); [dlia|].
  rewrite F. rewrite civilText_digits by lia.
  unfold instantOf. rewrite bytes_append, bytes_of_bytes. cbn [app].
  cbn [forallb]. rewrite !isDigit_utod by dlia. cbn [andb Ascii.eqb Bool.eqb].
  rewrite zoneOffset_zoneSuffix by (subst off; lia).
  rewrite num4_digits by lia. rewrite !num2_digits by lia.
  f_equal. rewrite C. subst abs. dlia.
Qed.

End WatermarkFacts.

(** ** Marshalling *)

Module JsonFacts.
Import Json.

(** Induction on documents, through the lists they nest in. *)
Lemma doc_nested_ind (P : doc -> Prop) :
  P DNull -> (forall b, P (DBool b)) -> (forall m e, P (DNum m e)) ->
  (forall s, P (DStr s)) ->
  (forall l, Forall P l -> P (DArr l)) ->
  (forall kvs, Forall (fun kv => P (snd kv)) kvs -> P (DObj kvs)) ->
  forall d, P d.
Proof.
  intros HN HB HM HS HA HO.
  fix IH 1. intros [| b | m e | s | l | kvs].
  - exact HN.
  - apply HB.
  - apply HM.
  - apply HS.
  - apply HA. induction l as [|x l IHl]; constructor; [apply IH | exact IHl].
  - apply HO. induction kvs as [|[k x] kvs IHl]; constructor; [apply IH | exact IHl].
Qed.

(** What [json.Unmarshal] stored is always accepted by [json.Marshal],
    and gives the same document back. *)
Lemma encode_decode d : encode (decode d) = Some d.
Proof.
  induction d as [| b | m e | s | l IH | kvs IH] using doc_nested_ind;
    try reflexivity.
  - cbn [decode encode].
    match goal with |- option_map _ ?g = _ => assert (E : g = Some l) end.
    { induction IH as [|x l Hx Hl IHl]; [reflexivity|].
      cbn [map]. rewrite Hx, IHl. reflexivity. }
    rewrite E. reflexivity.
  - cbn [decode encode].
    match goal with |- option_map _ ?g = _ => assert (E : g = Some kvs) end.
    { induction IH as [|[k x] l Hx Hl IHl]; [reflexivity|].
      cbn [map fst snd] in *. rewrite Hx, IHl. reflexivity. }
    rewrite E. reflexivity.
Qed.

Lemma decoded_Str s : decoded (Str s).
Proof. exists (DStr s). reflexivity. Qed.

Lemma decoded_Nil : decoded Nil.
Proof. exists DNull. reflexivity. Qed.

Lemma decoded_encode v : decoded v -> is_Some (encode v).
Proof. intros [d ->]. rewrite encode_decode. eauto. Qed.

Lemma hasKey_app {A : Type} k (a b : list (string * A)) :
  hasKey k (a ++ b) = hasKey k a || hasKey k b.
Proof. apply existsb_app. Qed.

Lemma Unmarshal_Some kvs m : Unmarshal (Some kvs) m = fold_left store kvs m.
Proof. reflexivity. Qed.

Lemma store_absent kvs m k :
  hasKey k kvs = false -> fold_left store kvs m !! k = m !! k.
Proof.
  revert m. induction kvs as [|[k' d] kvs IH]; intros m H; [reflexivity|].
  cbn in H. apply orb_false_elim in H as [H1 H2].
  cbn [fold_left]. rewrite IH by exact H2. unfold store. cbn [fst snd].
  apply lookup_insert_ne. intros ->. rewrite String.eqb_refl in H1. discriminate.
Qed.

Lemma store_last a k d b m :
  hasKey k b = false ->
  fold_left store (a ++ (k, d) :: b) m !! k = Some (decode d).
Proof.
  intros H. rewrite fold_left_app. cbn [fold_left].
  rewrite store_absent by exact H. unfold store at 1. cbn [fst snd].
  apply lookup_insert_eq.
Qed.

Lemma store_decoded kvs m :
  map_Forall (fun _ v => decoded v) m ->
  map_Forall (fun _ v => decoded v) (fold_left store kvs m).
Proof.
  revert m. induction kvs as [|[k d] kvs IH]; intros m H; [exact H|].
  cbn [fold_left]. apply IH. unfold store. cbn [fst snd].
  apply map_Forall_insert_2; [eexists; reflexivity | exact H].
Qed.

Lemma Marshal_decoded m :
  map_Forall (fun _ v => decoded v) m ->
  Marshal m = Some (omap encode m).
Proof.
  intros H. unfold Marshal.
  destruct (decide _) as [|N]; [reflexivity|].
  exfalso. apply N. intros k v Hk. apply decoded_encode. exact (H k v Hk).
Qed.

Lemma lookup_encoded (m : gmap string value) k d :
  m !! k = Some (decode d) -> omap encode m !! k = Some d.
Proof. intros H. rewrite lookup_omap, H. cbn. apply encode_decode. Qed.

Lemma lookup_encoded_None (m : gmap string value) k :
  m !! k = None -> omap encode m !! k = None.
Proof. intros H. rewrite lookup_omap, H. reflexivity. Qed.

End JsonFacts.

(** ** [massageEntryLog] *)

Module NormalizerFacts.
Import Json Logging Normalizer JsonFacts.

Lemma hasKey_omitStr k k' s :
  String.eqb k' k = false -> hasKey k (omitStr k' s) = false.
Proof.
  intros H. unfold omitStr. destruct (String.eqb s ""); [reflexivity|].
  cbn. now rewrite H.
Qed.

Lemma hasKey_omitMsg k k' o :
  String.eqb k' k = false -> hasKey k (omitMsg k' o) = false.
Proof. intros H. destruct o; [|reflexivity]. cbn. now rewrite H. Qed.

Lemma hasKey_omitInt k k' n :
  String.eqb k' k = false -> hasKey k (omitInt k' n) = false.
Proof.
  intros H. unfold omitInt. destruct (n =? 0); [reflexivity|]. cbn. now rewrite H.
Qed.

Lemma hasKey_members k (x : LogEntry) :
  String.eqb "timestamp" k = false -> String.eqb "receive_timestamp" k = false ->
  String.eqb "severity" k = false -> String.eqb "insert_id" k = false ->
  String.eqb "http_request" k = false -> String.eqb "labels" k = false ->
  String.eqb "trace" k = false -> String.eqb "span_id" k = false ->
  String.eqb "trace_sampled" k = false -> String.eqb "operation" k = false ->
  String.eqb "source_location" k = false -> String.eqb "split" k = false ->
  hasKey k
    (omitMsg "timestamp" (marshalTimestamp <$> Timestamp_ x)
     ++ omitMsg "receive_timestamp" (marshalTimestamp <$> ReceiveTimestamp x)
     ++ omitInt "severity" (Severity x)
     ++ omitStr "insert_id" (InsertId x)
     ++ omitMsg "http_request" (HttpRequest x)
     ++ (if decide (Labels x = []) then []
         else [("labels"%string, DObj (map (fun kv => (fst kv, DStr (snd kv))) (Labels x)))])
     ++ omitStr "trace" (Trace x)
     ++ omitStr "span_id" (SpanId x)
     ++ (if TraceSampled x then [("trace_sampled"%string, DBool true)] else [])
     ++ omitMsg "operation" (Operation x)
     ++ omitMsg "source_location" (SourceLocation x)
     ++ omitMsg "split" (Split x)) = false.
Proof.
  intros.
  repeat rewrite hasKey_app.
  repeat rewrite hasKey_omitStr by assumption.
  repeat rewrite hasKey_omitMsg by assumption.
  repeat rewrite hasKey_omitInt by assumption.
  destruct (decide (Labels x = [])), (TraceSampled x); unfold hasKey; cbn [existsb fst];
    repeat match goal with H : String.eqb _ k = false |- _ => rewrite H; clear H end;
    reflexivity.
Qed.

(** The members [json.Marshal] writes for an entry: [Payload] once, and
    no member called [jsonPayload] or [textPayload]. *)
Lemma Marshal_LogEntry_members x :
  match marshalPayload (Payload x) with
  | None => Marshal_LogEntry x = None
  | Some p =>
      exists a b, Marshal_LogEntry x = Some (a ++ ("Payload"%string, p) :: b)
        /\ hasKey "Payload" b = false
        /\ hasKey "jsonPayload" (a ++ ("Payload"%string, p) :: b) = false
        /\ hasKey "textPayload" (a ++ ("Payload"%string, p) :: b) = false
  end.
Proof.
  unfold Marshal_LogEntry. destruct (marshalPayload (Payload x)) as [p|]; [|reflexivity].
  eexists (omitStr "log_name" (LogName x) ++ omitMsg "resource" (Resource x)), _.
  split; [rewrite <- app_assoc; reflexivity|].
  split; [apply hasKey_members; reflexivity|]. split.
  - rewrite !hasKey_app, hasKey_omitStr, hasKey_omitMsg by reflexivity.
    change (hasKey "jsonPayload" (?u :: ?v)) with (hasKey "jsonPayload" v).
    apply hasKey_members; reflexivity.
  - rewrite !hasKey_app, hasKey_omitStr, hasKey_omitMsg by reflexivity.
    change (hasKey "textPayload" (?u :: ?v)) with (hasKey "textPayload" v).
    apply hasKey_members; reflexivity.
Qed.

Lemma assertMapIndex_wrapper k d :
  assertMapIndex (Some (decode (DObj [(k, d)]))) k = Ret (decode d).
Proof.
  unfold assertMapIndex. cbn [decode map fst snd find].
  rewrite String.eqb_refl. reflexivity.
Qed.

Lemma length_pos_nonempty t :
  (0 <? Z.of_nat (String.length t)) = negb (String.eqb t "").
Proof. destruct t; reflexivity. Qed.

(** The last steps of [massageEntryLog], on a map of decoded values. *)
Lemma finish_members (m : gmap string value) :
  map_Forall (fun _ v => decoded v) m ->
  exists o,
    Marshal (delete "receive_timestamp"%string (delete "Payload"%string m)) = Some o
    /\ o !! "Payload"%string = None /\ o !! "receive_timestamp"%string = None
    /\ forall k, k <> "Payload"%string -> k <> "receive_timestamp"%string ->
         o !! k = m !! k ≫= encode.
Proof.
  intros H. eexists. split.
  - apply Marshal_decoded. do 2 apply map_Forall_delete. exact H.
  - split; [|split].
    + apply lookup_encoded_None. rewrite lookup_delete_ne by done. apply lookup_delete_eq.
    + apply lookup_encoded_None. apply lookup_delete_eq.
    + intros k H1 H2. rewrite lookup_omap. now rewrite !lookup_delete_ne by done.
Qed.

(** [massageEntryLog], case by case: it panics exactly when the entry
    cannot be marshalled; otherwise the record is an object with the
    severity name, the local timestamp, the hoisted payload, and
    neither [Payload] nor [receive_timestamp]. *)
Lemma massageEntryLog_spec ck resp :
  match marshalPayload (Payload resp) with
  | None =>
      massageEntryLog ck resp
      = Panic "interface conversion: interface {} is not map[string]interface {}"
  | Some _ =>
      exists o,
        massageEntryLog ck resp = Ret (Object o, stampText ck resp)
        /\ o !! "severity"%string = Some (DStr (LogSeverity_String (Severity resp)))
        /\ o !! "timestamp"%string = Some (DStr (stampText ck resp))
        /\ o !! "Payload"%string = None
        /\ o !! "receive_timestamp"%string = None
        /\ o !! "jsonPayload"%string = hoisted resp "jsonPayload"
        /\ o !! "textPayload"%string = hoisted resp "textPayload"
  end.
Proof.
  pose proof (Marshal_LogEntry_members resp) as M.
  unfold massageEntryLog. fold (stampText ck resp).
  set (sev := LogSeverity_String (GetSeverity resp)).
  destruct (marshalPayload (Payload resp)) as [p|] eqn:P.
  - destruct M as (a & b & -> & Kp & Kj & Kt).
    rewrite Unmarshal_Some.
    set (m0 := fold_left store (a ++ ("Payload"%string, p) :: b) ∅).
    assert (D0 : map_Forall (fun _ v => decoded v) m0)
      by (apply store_decoded, map_Forall_empty).
    assert (Lp : m0 !! "Payload"%string = Some (decode p)) by (apply store_last; exact Kp).
    assert (Lj : m0 !! "jsonPayload"%string = None).
    { unfold m0. rewrite store_absent by exact Kj. apply lookup_empty. }
    assert (Lt : m0 !! "textPayload"%string = None).
    { unfold m0. rewrite store_absent by exact Kt. apply lookup_empty. }
    set (m2 := <["timestamp"%string := Str (stampText ck resp)]>
                 (<["severity"%string := Str sev]> m0)).
    assert (D2 : map_Forall (fun _ v => decoded v) m2).
    { apply map_Forall_insert_2; [apply decoded_Str|].
      apply map_Forall_insert_2; [apply decoded_Str | exact D0]. }
    assert (L2 : m2 !! "Payload"%string = Some (decode p)).
    { unfold m2. now rewrite !lookup_insert_ne by done. }
    rewrite L2.
    assert (Fin : forall m3 : gmap string value,
               map_Forall (fun _ v => decoded v) m3 ->
               m3 !! "severity"%string = Some (decode (DStr sev)) ->
               m3 !! "timestamp"%string = Some (decode (DStr (stampText ck resp))) ->
               forall j t, m3 !! "jsonPayload"%string ≫= encode = j ->
               m3 !! "textPayload"%string ≫= encode = t ->
               exists o,
                 obind (Ret m3)
                   (fun m =>
                      Ret (match Marshal (delete "receive_timestamp"%string
                                            (delete "Payload"%string m)) with
                           | Some o => Object o
                           | None => Empty
                           end, stampText ck resp))
                 = Ret (Object o, stampText ck resp)
                 /\ o !! "severity"%string = Some (DStr sev)
                 /\ o !! "timestamp"%string = Some (DStr (stampText ck resp))
                 /\ o !! "Payload"%string = None
                 /\ o !! "receive_timestamp"%string = None
                 /\ o !! "jsonPayload"%string = j
                 /\ o !! "textPayload"%string = t).
    { intros m3 D3 Ls Lts j t Ej Et.
      destruct (finish_members m3 D3) as (o & Mo & Op & Or & Ok).
      exists o. cbn [obind]. rewrite Mo. split; [reflexivity|].
      rewrite (Ok "severity"%string), (Ok "timestamp"%string),
        (Ok "jsonPayload"%string), (Ok "textPayload"%string) by done.
      rewrite Ls, Lts, Ej, Et. cbn [mbind option_bind encode decode].
      repeat split; assumption || reflexivity. }
    unfold hoisted, GetJsonPayload, GetTextPayload in *.
    destruct (Payload resp) as [[[any|] | t | [st|]]|]; unfold marshalPayload in P.
    + injection P as <-. destruct (decide _) as [N|_]; [congruence|].
      cbn. eapply Fin; eauto.
      * unfold m2. now rewrite lookup_insert_ne, lookup_insert_eq by done.
      * unfold m2. now rewrite lookup_insert_eq.
      * unfold m2. now rewrite !lookup_insert_ne, Lj by done.
      * unfold m2. now rewrite !lookup_insert_ne, Lt by done.
    + injection P as <-. destruct (decide _) as [N|_]; [congruence|].
      cbn. eapply Fin; eauto.
      * unfold m2. now rewrite lookup_insert_ne, lookup_insert_eq by done.
      * unfold m2. now rewrite lookup_insert_eq.
      * unfold m2. now rewrite !lookup_insert_ne, Lj by done.
      * unfold m2. now rewrite !lookup_insert_ne, Lt by done.
    + injection P as <-. destruct (decide _) as [N|_]; [congruence|].
      rewrite length_pos_nonempty. cbn [andb String.eqb Ascii.eqb Bool.eqb].
      destruct (String.eqb t ""); cbn [negb].
      * eapply Fin; eauto.
        -- unfold m2. now rewrite lookup_insert_ne, lookup_insert_eq by done.
        -- unfold m2. now rewrite lookup_insert_eq.
        -- unfold m2. now rewrite !lookup_insert_ne, Lj by done.
        -- unfold m2. now rewrite !lookup_insert_ne, Lt by done.
      * rewrite assertMapIndex_wrapper. cbn [obind].
        eapply Fin; eauto.
        -- apply map_Forall_insert_2; [eexists; reflexivity | exact D2].
        -- unfold m2. now rewrite !lookup_insert_ne, lookup_insert_eq by done.
        -- unfold m2. now rewrite lookup_insert_ne, lookup_insert_eq by done.
        -- unfold m2. now rewrite !lookup_insert_ne, Lj by done.
        -- now rewrite lookup_insert_eq.
    + destruct (marshalStruct st) as [d|] eqn:Ms; [|discriminate].
      injection P as <-. destruct (decide _) as [_|N]; [|exfalso; apply N; discriminate].
      rewrite assertMapIndex_wrapper. cbn [obind].
      eapply Fin; eauto.
      * apply map_Forall_insert_2; [eexists; reflexivity | exact D2].
      * unfold m2. now rewrite !lookup_insert_ne, lookup_insert_eq by done.
      * unfold m2. now rewrite lookup_insert_ne, lookup_insert_eq by done.
      * rewrite lookup_insert_eq. cbn. apply encode_decode.
      * unfold m2. now rewrite !lookup_insert_ne, Lt by done.
    + injection P as <-. destruct (decide _) as [N|_]; [congruence|].
      cbn. eapply Fin; eauto.
      * unfold m2. now rewrite lookup_insert_ne, lookup_insert_eq by done.
      * unfold m2. now rewrite lookup_insert_eq.
      * unfold m2. now rewrite !lookup_insert_ne, Lj by done.
      * unfold m2. now rewrite !lookup_insert_ne, Lt by done.
    + injection P as <-. destruct (decide _) as [N|_]; [congruence|].
      cbn. eapply Fin; eauto.
      * unfold m2. now rewrite lookup_insert_ne, lookup_insert_eq by done.
      * unfold m2. now rewrite lookup_insert_eq.
      * unfold m2. now rewrite !lookup_insert_ne, Lj by done.
      * unfold m2. now rewrite !lookup_insert_ne, Lt by done.
  - rewrite M. cbn [Unmarshal].
    unfold GetJsonPayload.
    destruct (Payload resp) as [[[any|] | t | [st|]]|]; unfold marshalPayload in P;
      try discriminate.
    destruct (decide _) as [_|N]; [|exfalso; apply N; discriminate].
    rewrite !lookup_insert_ne by done. rewrite lookup_empty. reflexivity.
Qed.

End NormalizerFacts.

(** ** Runs *)

Module RunFacts.
Import Json Logging Normalizer Reader Trace.

Lemma carry_not_Done {A B : Type} (o : ending_of A) (b : B) : carry o <> Done b.
Proof. destruct o; discriminate. Qed.

Lemma bind_Done {A B : Type} (m : run A) (k : A -> run B) w t1 w1 a :
  m w = (t1, w1, Done a) ->
  bind m k w = (t1 ++ events (k a w1), world (k a w1), endOf (k a w1)).
Proof.
  intros H. unfold bind. rewrite H. destruct (k a w1) as [[t2 w2] o]. reflexivity.
Qed.

Lemma bind_stuck {A B : Type} (m : run A) (k : A -> run B) w t1 w1 o :
  m w = (t1, w1, o) -> (forall a, o <> Done a) ->
  bind m k w = (t1, w1, carry o).
Proof.
  intros H N. unfold bind. rewrite H. destruct o; try reflexivity.
  exfalso. eapply N. reflexivity.
Qed.

Lemma bind_emit {B : Type} e (k : unit -> run B) w :
  bind (emit e) k w = (e :: events (k tt w), world (k tt w), endOf (k tt w)).
Proof. unfold bind, emit. destruct (k tt w) as [[t2 w2] o]. reflexivity. Qed.

Lemma bind_ret {A B : Type} (a : A) (k : A -> run B) w :
  bind (ret a) k w = k a w.
Proof. unfold bind, ret. destruct (k a w) as [[t2 w2] o]. reflexivity. Qed.

Lemma bind_cases {A B : Type} (m : run A) (k : A -> run B) w :
  (exists a, endOf (m w) = Done a
     /\ bind m k w = (events (m w) ++ events (k a (world (m w))),
                      world (k a (world (m w))), endOf (k a (world (m w)))))
  \/ ((forall a, endOf (m w) <> Done a)
      /\ bind m k w = (events (m w), world (m w), carry (endOf (m w)))).
Proof.
  destruct (m w) as [[t1 w1] o] eqn:E. cbn [events world endOf].
  destruct o as [a| | | |].
  - left. exists a. split; [reflexivity|]. now apply bind_Done.
  - right. split; [discriminate|]. now apply bind_stuck.
  - right. split; [discriminate|]. now apply bind_stuck.
  - right. split; [discriminate|]. now apply bind_stuck.
  - right. split; [discriminate|]. now apply bind_stuck.
Qed.

(** The events of the steps. *)
Lemma send_events b w : events (send b w) = [] \/ events (send b w) = [Send b].
Proof. unfold send. destruct (closed (tick w)); auto. Qed.

Lemma call_events {A : Type} (o : outcome A) w : events (call o w) = [].
Proof. destruct o; reflexivity. Qed.

Lemma call_world {A : Type} (o : outcome A) w : world (call o w) = w.
Proof. destruct o; reflexivity. Qed.

Lemma call_Done {A : Type} (o : outcome A) w a :
  endOf (call o w) = Done a -> o = Ret a.
Proof. destruct o; cbn; congruence. Qed.

Lemma Forall_bind {A B : Type} (Q : Event -> Prop) (m : run A) (k : A -> run B) w :
  Forall Q (events (m w)) ->
  (forall a w1, Forall Q (events (k a w1))) ->
  Forall Q (events (bind m k w)).
Proof.
  intros Hm Hk. destruct (bind_cases m k w) as [(a & _ & ->) | (_ & ->)].
  - cbn [events fst]. apply Forall_app. split; [exact Hm | apply Hk].
  - exact Hm.
Qed.

Lemma send_inner b w : Forall inner (events (send b w)).
Proof. destruct (send_events b w) as [-> | ->]; repeat constructor. Qed.

Lemma send_isSend b w : Forall isSend (events (send b w)).
Proof. destruct (send_events b w) as [-> | ->]; repeat constructor. Qed.

Section Session.
Variable ck : GoTime.Clock.
Variable s : gcpStream.
Variable c : Backend.

Lemma drain_inner es lt w : Forall inner (events (drain ck es lt w)).
Proof.
  revert lt w. induction es as [|resp es IH]; intros lt w; [constructor|].
  cbn [drain]. rewrite bind_emit. cbn [events fst]. constructor; [exact I|].
  apply Forall_bind; [rewrite call_events; constructor|]. intros r w1.
  rewrite bind_emit. cbn [events fst]. constructor; [exact I|].
  apply Forall_bind; [apply send_inner|]. intros _ w2. apply IH.
Qed.

Lemma forward_sends es w : Forall isSend (events (forward ck es w)).
Proof.
  revert w. induction es as [|resp es IH]; intros w; [constructor|].
  cbn [forward].
  apply Forall_bind; [rewrite call_events; constructor|]. intros r w1.
  apply Forall_bind; [apply send_isSend|]. intros _ w2. apply IH.
Qed.

Lemma recvLoop_sends chunks w : Forall isSend (events (recvLoop ck c chunks w)).
Proof.
  revert w. induction chunks as [|chunk rest IH]; intros w.
  - cbn [recvLoop]. destruct (tailEnd c); constructor.
  - cbn [recvLoop]. apply Forall_bind; [apply forward_sends|]. intros _ w1. apply IH.
Qed.

(** [streamTail] enters tail mode once, first thing, and then only
    sends. *)
Lemma streamTail_events w :
  exists rest, events (streamTail ck s c w) = Tail :: rest /\ Forall isSend rest.
Proof.
  unfold streamTail. rewrite bind_emit. cbn [events fst].
  eexists. split; [reflexivity|].
  destruct (TailLogEntries c); [constructor|].
  destruct (tailSend c _); [constructor|]. apply recvLoop_sends.
Qed.

End Session.

End RunFacts.

(** ** The historical loop *)

Module HistoricalFacts.
Import Json Logging Normalizer Reader Trace RunFacts.


Lemma split_unique {A : Type} (x : A) (a b pre post : list A) :
  a ++ x :: b = pre ++ x :: post -> ~ List.In x a -> ~ List.In x pre ->
  pre = a /\ post = b.
Proof.
  revert pre. induction a as [|y a IH]; intros pre E Na Np.
  - destruct pre as [|z pre]; [injection E as ->; auto|].
    cbn in E. injection E as <- _. exfalso. apply Np. left. reflexivity.
  - destruct pre as [|z pre].
    + cbn in E. injection E as -> _. exfalso. apply Na. left. reflexivity.
    + cbn in E. injection E as <- E.
      destruct (IH pre E) as (-> & ->); [| | auto].
      * intros H. apply Na. right. exact H.
      * intros H. apply Np. right. exact H.
Qed.






(** The two filters are the same function of the Watermark up to the
    user's predicate: they are equal only for equal Watermarks. *)
Lemma append_inj_l (p a b : string) : p +:+ a = p +:+ b -> a = b.
Proof.
  induction p as [|x p IH]; [auto|]. intros H.
  change (String x (p +:+ a) = String x (p +:+ b)) in H. injection H as H. auto.
Qed.

Lemma length_append (a b : string) :
  String.length (a +:+ b) = (String.length a + String.length b)%nat.
Proof.
  induction a as [|x a IH]; [reflexivity|].
  change (S (String.length (a +:+ b)) = S (String.length a + String.length b)).
  now rewrite IH.
Qed.

Lemma append_inj_r (a b q : string) : a +:+ q = b +:+ q -> a = b.
Proof.
  revert b. induction a as [|x a IH]; intros [|y b] H.
  - reflexivity.
  - apply (f_equal String.length) in H.
    change (String.length q = S (String.length (b +:+ q))) in H.
    rewrite length_append in H. lia.
  - apply (f_equal String.length) in H.
    change (S (String.length (a +:+ q)) = String.length q) in H.
    rewrite length_append in H. lia.
  - change (String x (a +:+ q) = String y (b +:+ q)) in H.
    injection H as -> H. f_equal. auto.
Qed.

Lemma timestampFilter_inj l1 l2 : timestampFilter l1 = timestampFilter l2 -> l1 = l2.
Proof.
  unfold timestampFilter. intros H.
  apply append_inj_l, append_inj_l in H. apply append_inj_r in H. exact H.
Qed.

Lemma timestampAndFilter_inj l1 l2 u :
  timestampAndFilter l1 u = timestampAndFilter l2 u -> l1 = l2.
Proof.
  unfold timestampAndFilter. intros H.
  apply append_inj_l, append_inj_l in H. apply append_inj_r in H. exact H.
Qed.






Lemma readStop_run w :
  readStop w = ((if stop (tick w) then [SawStop] else []), tick w, Done (stop (tick w))).
Proof. unfold readStop. destruct (stop (tick w)); reflexivity. Qed.

Section Session.
Variable ck : GoTime.Clock.
Variable s : gcpStream.
Variable c : Backend.





End Session.

End HistoricalFacts.

(** ** The producer *)

Module ProducerFacts.
Import Json Logging Normalizer Reader Trace RunFacts HistoricalFacts.




Lemma tick_quiet w : closeIn w = None -> tick w = w.
Proof. unfold tick. now intros ->. Qed.

Lemma send_quiet b w : closeIn w = None -> world (send b w) = w.
Proof.
  intros H. unfold send. rewrite tick_quiet by exact H. destruct (closed w); reflexivity.
Qed.

Section Session.
Variable ck : GoTime.Clock.
Variable s : gcpStream.
Variable c : Backend.



(** The events of the producer, by the way the historical loop
    ends. *)
Lemma producer_shape fuel w :
  isTail s = false ->
  let rh := streamFrom ck s c fuel w in
  (endOf rh = Done None
   /\ exists rest, events (producer ck s c fuel w) = events rh ++ Tail :: rest
                   /\ Forall afterTail rest)
  \/ (endOf rh <> Done None
      /\ exists rest, events (producer ck s c fuel w) = events rh ++ rest
                      /\ Forall isReport rest).
Proof.
  intros Ht. cbv zeta. unfold producer. rewrite Ht.
  set (K2 := fun err : option error =>
               match err with
               | Some e => if onError s then emit (Report e) else ret tt
               | None => ret tt
               end).
  assert (HK2 : forall err w1, Forall isReport (events (K2 err w1))).
  { intros [e|] w1; cbn; [|constructor]. destruct (onError s); repeat constructor. }
  set (K1 := fun err : option error =>
               match err with
               | None => streamTail ck s c
               | Some _ => ret err
               end).
  set (rh := streamFrom ck s c fuel w).
  destruct (bind_cases (streamFrom ck s c fuel) K1 w) as [(err & Eh & Eb) | (Nh & Eb)];
    fold rh in Eb; [fold rh in Eh | fold rh in Nh].
  - destruct err as [e|].
    + right. split; [congruence|].
      cbn [K1 ret events world endOf fst snd] in Eb. rewrite app_nil_r in Eb.
      rewrite (bind_Done _ _ _ _ _ _ Eb). cbn [events fst].
      eexists. split; [reflexivity | apply HK2].
    + left. split; [exact Eh|].
      cbn [K1] in Eb.
      destruct (streamTail_events ck s c (world rh)) as (tt & Et & Ft).
      rewrite Et in Eb.
      destruct (endOf (streamTail ck s c (world rh))) as [err| | | |] eqn:Ee.
      * rewrite (bind_Done _ _ _ _ _ _ Eb). cbn [events fst].
        exists (tt ++ events (K2 err (world (streamTail ck s c (world rh))))).
        split; [now rewrite <- app_assoc|].
        apply Forall_app. split.
        -- eapply Forall_impl; [exact Ft|]. intros []; cbn; tauto.
        -- eapply Forall_impl; [apply HK2|]. intros []; cbn; tauto.
      * rewrite (bind_stuck _ _ _ _ _ _ Eb) by discriminate. cbn [events fst].
        exists tt. split; [reflexivity|].
        eapply Forall_impl; [exact Ft|]. intros []; cbn; tauto.
      * rewrite (bind_stuck _ _ _ _ _ _ Eb) by discriminate. cbn [events fst].
        exists tt. split; [reflexivity|].
        eapply Forall_impl; [exact Ft|]. intros []; cbn; tauto.
      * rewrite (bind_stuck _ _ _ _ _ _ Eb) by discriminate. cbn [events fst].
        exists tt. split; [reflexivity|].
        eapply Forall_impl; [exact Ft|]. intros []; cbn; tauto.
      * rewrite (bind_stuck _ _ _ _ _ _ Eb) by discriminate. cbn [events fst].
        exists tt. split; [reflexivity|].
        eapply Forall_impl; [exact Ft|]. intros []; cbn; tauto.
  - right. split; [apply Nh|].
    rewrite (bind_stuck _ _ _ _ _ _ Eb) by (intros a; apply carry_not_Done).
    cbn [events fst]. exists []. split; [now rewrite app_nil_r | constructor].
Qed.

Lemma producer_tail fuel w :
  isTail s = true ->
  exists rest, events (producer ck s c fuel w) = Tail :: rest /\ Forall afterTail rest.
Proof.
  intros Ht. unfold producer. rewrite Ht.
  set (K2 := fun err : option error =>
               match err with
               | Some e => if onError s then emit (Report e) else ret tt
               | None => ret tt
               end).
  assert (HK2 : forall err w1, Forall afterTail (events (K2 err w1))).
  { intros [e|] w1; cbn; [|constructor]. destruct (onError s); repeat constructor. }
  destruct (streamTail_events ck s c w) as (tt & Et & Ft).
  assert (Ft' : Forall afterTail tt).
  { eapply Forall_impl; [exact Ft|]. intros []; cbn; tauto. }
  destruct (bind_cases (streamTail ck s c) K2 w) as [(err & _ & ->) | (_ & ->)];
    cbn [events fst]; rewrite Et.
  - eexists. split; [reflexivity|]. apply Forall_app. split; [exact Ft' | apply HK2].
  - eexists. split; [reflexivity | exact Ft'].
Qed.



End Session.

End ProducerFacts.

(** ** Watermarks of a session *)

Module SessionFacts.
Import Json Logging Normalizer Reader Trace Watermark.
Import RunFacts HistoricalFacts ProducerFacts NormalizerFacts WatermarkFacts.

Lemma marks_app a b : marks (a ++ b) = marks a ++ marks b.
Proof.
  induction a as [|e a IH]; [reflexivity|]. destruct e; cbn; rewrite ?IH; reflexivity.
Qed.

Lemma received_app a b : received (a ++ b) = received a ++ received b.
Proof.
  induction a as [|e a IH]; [reflexivity|]. destruct e; cbn; rewrite ?IH; reflexivity.
Qed.


Lemma massageEntryLog_Ret ck resp b lt :
  massageEntryLog ck resp = Ret (b, lt) ->
  lt = stampText ck resp
  /\ exists o, b = Object o
      /\ o !! "severity"%string = Some (DStr (LogSeverity_String (Severity resp)))
      /\ o !! "timestamp"%string = Some (DStr (stampText ck resp))
      /\ o !! "Payload"%string = None
      /\ o !! "receive_timestamp"%string = None
      /\ o !! "jsonPayload"%string = hoisted resp "jsonPayload"
      /\ o !! "textPayload"%string = hoisted resp "textPayload".
Proof.
  intros H. pose proof (massageEntryLog_spec ck resp) as S.
  destruct (marshalPayload (Payload resp)); [|congruence].
  destruct S as (o & E & S). rewrite E in H. injection H as <- <-.
  split; [reflexivity|]. exists o. split; [reflexivity | exact S].
Qed.

Section Session.
Variable ck : GoTime.Clock.
Variable s : gcpStream.
Variable c : Backend.




End Session.


Lemma ascending_app_l a b : ascending (a ++ b) = true -> ascending a = true.
Proof.
  induction a as [|x [|y a] IH]; [reflexivity | reflexivity |].
  intros H. change (((x <=? y) && ascending ((y :: a) ++ b)) = true) in H.
  apply andb_prop in H as [H1 H2].
  change (((x <=? y) && ascending (y :: a)) = true).
  rewrite H1. apply IH. exact H2.
Qed.



End SessionFacts.

(** ** Records on the channel *)

Module ChannelFacts.
Import Json Logging Normalizer Reader Trace Watermark.
Import RunFacts HistoricalFacts ProducerFacts NormalizerFacts SessionFacts.

Lemma Forall_bind_Done {A B : Type} (Q : Event -> Prop) (m : run A) (k : A -> run B) w :
  Forall Q (events (m w)) ->
  (forall a, endOf (m w) = Done a -> Forall Q (events (k a (world (m w))))) ->
  Forall Q (events (bind m k w)).
Proof.
  intros Hm Hk. destruct (bind_cases m k w) as [(a & E & ->) | (_ & ->)].
  - cbn [events fst]. apply Forall_app. split; [exact Hm | now apply Hk].
  - exact Hm.
Qed.

Lemma normalised_impl ck (P Q : LogEntry -> Prop) l :
  (forall r, P r -> Q r) -> Forall (normalised ck P) l -> Forall (normalised ck Q) l.
Proof.
  intros H F. eapply Forall_impl; [exact F|].
  intros [] ; cbn; auto. intros (resp & lt & Hp & E). eauto.
Qed.

Lemma send_normalised ck from b w resp lt :
  from resp -> massageEntryLog ck resp = Ret (b, lt) ->
  Forall (normalised ck from) (events (send b w)).
Proof.
  intros Hf E. destruct (send_events b w) as [-> | ->]; repeat constructor.
  cbn. eauto.
Qed.

Lemma send_quiet_run b w :
  closeIn w = None ->
  send b w = if closed w then ([], w, Panicked "send on closed channel")
             else ([Send b], w, Done tt).
Proof. intros H. unfold send. now rewrite tick_quiet by exact H. Qed.

Section Session.
Variable ck : GoTime.Clock.
Variable s : gcpStream.
Variable c : Backend.

Lemma drain_normalised es lt w :
  Forall (normalised ck (fun r => List.In r es)) (events (drain ck es lt w)).
Proof.
  revert lt w. induction es as [|resp es IH]; intros lt w; [constructor|].
  cbn [drain]. rewrite bind_emit. cbn [events fst]. constructor; [exact I|].
  apply Forall_bind_Done; [rewrite call_events; constructor|].
  intros [b lt1] E. apply call_Done in E. rewrite call_world.
  rewrite bind_emit. cbn [events fst snd]. constructor; [exact I|].
  apply Forall_bind_Done.
  - eapply send_normalised; [|exact E]. left. reflexivity.
  - intros _ _. eapply normalised_impl; [|apply IH]. intros r Hr. right. exact Hr.
Qed.

Lemma forward_normalised es w :
  Forall (normalised ck (fun r => List.In r es)) (events (forward ck es w)).
Proof.
  revert w. induction es as [|resp es IH]; intros w; [constructor|].
  cbn [forward].
  apply Forall_bind_Done; [rewrite call_events; constructor|].
  intros [b lt1] E. apply call_Done in E. rewrite call_world.
  apply Forall_bind_Done.
  - eapply send_normalised; [|exact E]. left. reflexivity.
  - intros _ _. eapply normalised_impl; [|apply IH]. intros r Hr. right. exact Hr.
Qed.

Lemma recvLoop_normalised chunks w :
  Forall (normalised ck (fun r => exists chunk, List.In chunk chunks /\ List.In r chunk))
    (events (recvLoop ck c chunks w)).
Proof.
  revert w. induction chunks as [|chunk rest IH]; intros w.
  - cbn [recvLoop]. destruct (tailEnd c); constructor.
  - cbn [recvLoop]. apply Forall_bind_Done.
    + eapply normalised_impl; [|apply forward_normalised].
      intros r Hr. exists chunk. split; [left; reflexivity | exact Hr].
    + intros _ _. eapply normalised_impl; [|apply IH].
      intros r (ch & H1 & H2). exists ch. split; [right; exact H1 | exact H2].
Qed.

Lemma streamTail_normalised w :
  Forall (normalised ck (delivered c)) (events (streamTail ck s c w)).
Proof.
  unfold streamTail. rewrite bind_emit. cbn [events fst]. constructor; [exact I|].
  destruct (TailLogEntries c); [constructor|].
  destruct (tailSend c _); [constructor|].
  eapply normalised_impl; [|apply recvLoop_normalised].
  intros r H. right. exact H.
Qed.

Lemma streamFromLoop_normalised fuel : forall k lt lf w,
  Forall (normalised ck (delivered c)) (events (streamFromLoop ck s c fuel k lt lf w)).
Proof.
  induction fuel as [|fuel IH]; intros k lt lf w; [constructor|].
  cbn [streamFromLoop].
  apply Forall_bind_Done.
  { rewrite readStop_run. cbn. destruct (stop (tick w)); repeat constructor. }
  intros [|] _; [constructor|].
  rewrite bind_emit. cbn [events fst]. constructor; [exact I|].
  destruct (String.eqb _ lf); [constructor|].
  rewrite bind_emit. cbn [events fst]. constructor; [exact I|].
  apply Forall_bind_Done.
  - eapply normalised_impl; [|apply drain_normalised].
    intros r Hr. left. do 2 eexists. exact Hr.
  - intros lt' _. destruct (Reader.ending _); [constructor | apply IH].
Qed.

Lemma producer_normalised fuel w :
  Forall (normalised ck (delivered c)) (events (producer ck s c fuel w)).
Proof.
  unfold producer. apply Forall_bind_Done.
  - destruct (isTail s); [apply streamTail_normalised|].
    apply Forall_bind_Done; [apply streamFromLoop_normalised|].
    intros [e|] _; [constructor | apply streamTail_normalised].
  - intros [e|] _; [|constructor]. destruct (onError s); repeat constructor.
Qed.

(** The tail loop does not look at the stop flag: with no further
    [Close] due, it runs the same whether the flag is set or not. *)
Lemma forward_stop_blind es w1 w2 :
  closeIn w1 = None -> closeIn w2 = None -> closed w1 = closed w2 ->
  events (forward ck es w1) = events (forward ck es w2)
  /\ endOf (forward ck es w1) = endOf (forward ck es w2)
  /\ world (forward ck es w1) = w1 /\ world (forward ck es w2) = w2.
Proof.
  intros H1 H2 Hc. induction es as [|resp es IH]; [cbn; auto|].
  cbn [forward].
  destruct (massageEntryLog ck resp) as [[b lt]| |]; cbn [call];
    [|cbn; auto..].
  rewrite !bind_ret. cbn [fst].
  pose proof (send_quiet_run b w1 H1) as S1.
  pose proof (send_quiet_run b w2 H2) as S2.
  rewrite <- Hc in S2. destruct (closed w1).
  - rewrite (bind_stuck _ _ _ _ _ _ S1), (bind_stuck _ _ _ _ _ _ S2) by discriminate.
    cbn. auto.
  - rewrite (bind_Done _ _ _ _ _ _ S1), (bind_Done _ _ _ _ _ _ S2).
    cbn [events endOf world fst snd]. destruct IH as (-> & -> & -> & ->). auto.
Qed.

Lemma recvLoop_stop_blind chunks w1 w2 :
  closeIn w1 = None -> closeIn w2 = None -> closed w1 = closed w2 ->
  events (recvLoop ck c chunks w1) = events (recvLoop ck c chunks w2)
  /\ endOf (recvLoop ck c chunks w1) = endOf (recvLoop ck c chunks w2).
Proof.
  intros H1 H2 Hc. induction chunks as [|chunk rest IH].
  - cbn [recvLoop]. destruct (tailEnd c); cbn; auto.
  - cbn [recvLoop]. unfold bind.
    destruct (forward_stop_blind chunk w1 w2 H1 H2 Hc) as (E1 & E2 & E3 & E4).
    destruct (forward ck chunk w1) as [[t1 x1] o1], (forward ck chunk w2) as [[t2 x2] o2].
    cbn in E1, E2, E3, E4. subst.
    destruct o2; cbn; auto.
    destruct IH as [I1 I2].
    destruct (recvLoop ck c rest w1) as [[t1 x1] o1],
      (recvLoop ck c rest w2) as [[t3 x3] o3].
    cbn in *. subst. auto.
Qed.

Lemma streamTail_stop_blind w1 w2 :
  closeIn w1 = None -> closeIn w2 = None -> closed w1 = closed w2 ->
  events (streamTail ck s c w1) = events (streamTail ck s c w2)
  /\ endOf (streamTail ck s c w1) = endOf (streamTail ck s c w2).
Proof.
  intros H1 H2 Hc. unfold streamTail. rewrite !bind_emit. cbn [events endOf fst snd].
  destruct (TailLogEntries c); [cbn; auto|].
  destruct (tailSend c _); [cbn; auto|].
  destruct (recvLoop_stop_blind (tailChunks c) w1 w2 H1 H2 Hc) as [-> ->]. auto.
Qed.

End Session.

End ChannelFacts.

(** ** The claims *)

Module Claims.
Import GoString GoTime TimeRange Json Logging Normalizer Reader Trace Watermark Auth.
Import RunFacts HistoricalFacts ProducerFacts NormalizerFacts SessionFacts ChannelFacts.
Import TimeRangeFacts.




(** C3 (as amended).  A record never carries both keys.  It carries
  [jsonPayload], holding the marshalled payload, exactly when the entry
  has a structured payload that is not nil; it carries [textPayload],
  holding the text, exactly when the entry has a text payload that is
  not empty; every other entry yields neither key. *)
Theorem payload_keys (ck : Clock) (resp : LogEntry) (b : text) (lastTime : string) :
massageEntryLog ck resp = Ret (b, lastTime) ->
exists o, b = Object o
  /\ o !! "jsonPayload"%string = hoisted resp "jsonPayload"
  /\ o !! "textPayload"%string = hoisted resp "textPayload"
  /\ (is_Some (o !! "jsonPayload"%string)
      <-> exists st, Payload resp = Some (LogEntry_JsonPayload (Some st)))
  /\ (is_Some (o !! "textPayload"%string)
      <-> exists t, Payload resp = Some (LogEntry_TextPayload t) /\ t <> EmptyString)
  /\ (o !! "jsonPayload"%string = None \/ o !! "textPayload"%string = None).
Proof.
intros H. pose proof (massageEntryLog_spec ck resp) as S.
destruct (marshalPayload (Payload resp)) as [p|] eqn:P; [|congruence].
destruct S as (o & E & _ & _ & _ & _ & Hj & Ht).
rewrite E in H. injection H as <- <-.
exists o. split; [reflexivity|]. split; [exact Hj|]. split; [exact Ht|].
rewrite Hj, Ht. unfold hoisted.
destruct (Payload resp) as [[[any|] | t | [st|]]|]; unfold marshalPayload in P.
- split; [|split]; [split; [intros [? [=]] | intros [? [=]]]
                   | split; [intros [? [=]] | intros [? [[=] _]]] | auto].
- split; [|split]; [split; [intros [? [=]] | intros [? [=]]]
                   | split; [intros [? [=]] | intros [? [[=] _]]] | auto].
- cbn [String.eqb Ascii.eqb Bool.eqb andb].
  split; [|split]; [split; [intros [? [=]] | intros [? [=]]] | | auto].
  destruct (String.eqb_spec t EmptyString) as [->|N]; cbn [negb andb].
  + split; [intros [? [=]] | intros (? & [= <-] & N); congruence].
  + split; [intros _; eauto | eauto].
- destruct (marshalStruct st) as [d|]; [|discriminate].
  cbn [String.eqb Ascii.eqb Bool.eqb andb].
  split; [|split]; [split; [intros _; eauto | eauto]
                   | split; [intros [? [=]] | intros [? [[=] _]]] | auto].
- split; [|split]; [split; [intros [? [=]] | intros [? [=]]]
                   | split; [intros [? [=]] | intros [? [[=] _]]] | auto].
- split; [|split]; [split; [intros [? [=]] | intros [? [=]]]
                   | split; [intros [? [=]] | intros [? [[=] _]]] | auto].
Qed.

(** The record of an entry with the text payload [a]. *)
Lemma payload_keys_witness :
exists b lastTime,
  massageEntryLog Examples.utc (Examples.textEntry 10 "a") = Ret (b, lastTime)
  /\ exists o, b = Object o
      /\ o !! "textPayload"%string = Some (DStr "a")
      /\ o !! "jsonPayload"%string = None.
Proof.
destruct (massageEntryLog Examples.utc (Examples.textEntry 10 "a")) as [[b lt]| |] eqn:E;
  [|exfalso; vm_compute in E; discriminate E..].
exists b, lt. split; [reflexivity|].
destruct (payload_keys Examples.utc (Examples.textEntry 10 "a") b lt E)
  as (o & -> & Hj & Ht & _).
exists o. split; [reflexivity|]. split; [exact Ht | exact Hj].
Defined.

(** C3, as the claim states it, fails: the records of an entry with an
  empty text payload and of an entry with a proto payload carry neither
  key. *)
Lemma neither_payload_key :
(exists o lastTime,
    massageEntryLog Examples.utc Examples.emptyText = Ret (Object o, lastTime)
    /\ Payload Examples.emptyText = Some (LogEntry_TextPayload EmptyString)
    /\ o !! "jsonPayload"%string = None /\ o !! "textPayload"%string = None)
/\ (exists o lastTime,
      massageEntryLog Examples.utc Examples.protoEntry = Ret (Object o, lastTime)
      /\ o !! "jsonPayload"%string = None /\ o !! "textPayload"%string = None).
Proof.
split.
- pose proof (massageEntryLog_spec Examples.utc Examples.emptyText) as S.
  cbn [Examples.emptyText Examples.textEntry Examples.entry Payload marshalPayload] in S.
  destruct S as (o & E & _ & _ & _ & _ & Hj & Ht).
  exists o, (stampText Examples.utc Examples.emptyText).
  split; [exact E|]. split; [reflexivity|]. split; [exact Hj | exact Ht].
- pose proof (massageEntryLog_spec Examples.utc Examples.protoEntry) as S.
  cbn [Examples.protoEntry Examples.entry Payload marshalPayload] in S.
  destruct S as (o & E & _ & _ & _ & _ & Hj & Ht).
  exists o, (stampText Examples.utc Examples.protoEntry).
  split; [exact E|]. split; [exact Hj | exact Ht].
Qed.

(** C4 (code bug).  [massageEntryLog] is not total: it panics on
  [Examples.unsetKind], and in general exactly on the entries whose
  structured payload [json.Marshal] refuses. *)
Theorem massageEntryLog_panics :
massageEntryLog Examples.utc Examples.unsetKind
= Panic "interface conversion: interface {} is not map[string]interface {}"
/\ forall (ck : Clock) (resp : LogEntry),
     (exists v, massageEntryLog ck resp = Panic v)
     <-> (exists st, Payload resp = Some (LogEntry_JsonPayload (Some st))
                     /\ marshalStruct st = None).
Proof.
split; [vm_compute; reflexivity|].
intros ck resp. pose proof (massageEntryLog_spec ck resp) as S.
destruct (marshalPayload (Payload resp)) as [p|] eqn:P.
- destruct S as (o & E & _). rewrite E. split; [intros [v [=]]|].
  intros (st & Hp & Hm). rewrite Hp in P. unfold marshalPayload in P.
  rewrite Hm in P. discriminate P.
- split; [|intros _; eauto]. intros _.
  destruct (Payload resp) as [[[any|] | t | [st|]]|]; unfold marshalPayload in P;
    try discriminate P.
  exists st. split; [reflexivity|]. destruct (marshalStruct st); [discriminate P | reflexivity].
Qed.




(** C6 (code bug).  The tail loop never reads the stop flag: with the flag
  set it does what it does with the flag clear.  So for the reader
  [Examples.live], when [Close] is called after the first record has
  been sent, the producer goes on to the next entry and its send on the
  closed channel panics.  The inner loop of the historical mode does not
  read the flag either: the same happens to [Examples.hist] when [Close]
  is called between the two entries of a listing. *)
Theorem tail_ignores_stop :
(forall (ck : Clock) (s : gcpStream) (c : Backend) (closed : bool),
    events (streamTail ck s c (mkWorld true closed None))
    = events (streamTail ck s c (mkWorld false closed None))
    /\ endOf (streamTail ck s c (mkWorld true closed None))
       = endOf (streamTail ck s c (mkWorld false closed None)))
/\ (let r := producer Examples.utc Examples.live Examples.twoChunks 0 (start (Some 1%nat)) in
    length (sent (events r)) = 1%nat
    /\ stop (world r) = true
    /\ endOf r = Panicked "send on closed channel")
/\ (let r := producer Examples.utc Examples.hist Examples.inOrder 5 (start (Some 2%nat)) in
    length (sent (events r)) = 1%nat
    /\ stop (world r) = true
    /\ endOf r = Panicked "send on closed channel").
Proof.
split; [|split].
- intros ck s c cl. apply streamTail_stop_blind; reflexivity.
- cbv zeta. repeat split; vm_compute; reflexivity.
- cbv zeta. repeat split; vm_compute; reflexivity.
Qed.

(** C7.  Every record sent on the channel is the text of a JSON object
  made from an entry the remote side delivered: it carries the name of
  that entry's severity under [severity] and its timestamp, local and in
  RFC 3339, under [timestamp], and it has neither a [Payload] nor a
  [receive_timestamp] member. *)
Theorem records_on_channel (ck : Clock) (s : gcpStream) (c : Backend) (fuel : nat)
  (w : World) (b : text) :
List.In (Send b) (events (producer ck s c fuel w)) ->
exists resp o,
  delivered c resp /\ b = Object o
  /\ o !! "severity"%string = Some (DStr (LogSeverity_String (GetSeverity resp)))
  /\ o !! "timestamp"%string
     = Some (DStr (FormatRFC3339 ck (In Local (AsTime (GetTimestamp resp)))))
  /\ o !! "Payload"%string = None
  /\ o !! "receive_timestamp"%string = None.
Proof.
intros H. pose proof (producer_normalised ck s c fuel w) as F.
rewrite Forall_forall in F. apply list_elem_of_In in H.
specialize (F _ H). cbn in F. destruct F as (resp & lt & Hd & E).
apply massageEntryLog_Ret in E as (_ & o & -> & Hs & Ht & Hp & Hr & _).
exists resp, o. repeat split; assumption.
Qed.

(** The first record of the session of [Examples.hist] against
  [Examples.inOrder]. *)
Lemma records_on_channel_witness :
exists b o,
  nth_error (events (producer Examples.utc Examples.hist Examples.inOrder 5 (start None))) 4
  = Some (Send b)
  /\ b = Object o
  /\ o !! "Payload"%string = None
  /\ is_Some (o !! "severity"%string).
Proof.
pose (tr := events (producer Examples.utc Examples.hist Examples.inOrder 5 (start None))).
destruct (nth_error tr 4) as [[| | | | |b| |]|] eqn:E;
  try (exfalso; vm_compute in E; discriminate E).
destruct (records_on_channel Examples.utc Examples.hist Examples.inOrder 5 (start None) b)
  as (resp & o & _ & -> & Hs & _ & Hp & _).
- eapply nth_error_In. exact E.
- exists (Object o), o. split; [exact E|]. split; [reflexivity|].
  split; [exact Hp | rewrite Hs; eauto].
Defined.

(** C8 (as amended).  On an input that, once trimmed, has the layout
  [2006-01-02T15:04:05]: if its fields are a date and a time of day,
  [ParseFrom] returns the same text followed by [Z], which is the instant
  at which clocks on UTC (not local clocks) show that date and time;
  otherwise it ends the process. *)
Theorem ParseFrom_absolute (ck : Clock) (str : string) (f : Z * Z * Z * Z * Z * Z) :
fields (TrimSpace str) = Some f ->
if inRange f
then ParseFrom ck str = Ret (TrimSpace str +:+ "Z")
     /\ (let '(y, m, d, h, mi, s) := f in
         instantOf (TrimSpace str +:+ "Z") = Some (sec (Date y m d h mi s)))
else ParseFrom ck str = Exit "Invalid parameter for 'from' flag - bad format: ".
Proof. apply ParseFrom_laidOut. Qed.

Lemma ParseFrom_absolute_witness :
fields (TrimSpace "2024-01-02T03:04:05") = Some (2024, 1, 2, 3, 4, 5)
/\ ParseFrom Examples.east "2024-01-02T03:04:05" = Ret "2024-01-02T03:04:05Z"%string.
Proof.
split; [vm_compute; reflexivity|].
pose proof (ParseFrom_absolute Examples.east "2024-01-02T03:04:05" (2024, 1, 2, 3, 4, 5))
  as H.
destruct H as [H _]; [vm_compute; reflexivity|]. exact H.
Defined.

(** C8, as the claim states it, fails twice.  A string of the layout
  whose month is 13 ends the process.  And on a machine one hour east of
  UTC the input [2024-01-02T03:04:05] yields the instant 1704164645,
  while local clocks show that date and time at the instant
  1704161045. *)
Lemma absolute_form_rejected_or_shifted :
regD "2024-13-01T00:00:00" = true
/\ ParseFrom Examples.east "2024-13-01T00:00:00"
   = Exit "Invalid parameter for 'from' flag - bad format: "
/\ ParseFrom Examples.east "2024-01-02T03:04:05" = Ret "2024-01-02T03:04:05Z"%string
/\ instantOf "2024-01-02T03:04:05Z" = Some 1704164645
/\ FormatRFC3339 Examples.east (mkTime 1704161045 0 Local)
   = "2024-01-02T03:04:05+01:00"%string.
Proof. repeat split; vm_compute; reflexivity. Qed.

(** C9 (as amended).  [ParseFrom] trims its input first, and ends the
  process exactly when what is left is not [tail], not digits followed
  by one of [s], [m], [h], [d], and not a date and time of the layout
  [2006-01-02T15:04:05] with fields in range. *)
Theorem ParseFrom_fatal_iff (ck : Clock) (str : string) :
(exists msg, ParseFrom ck str = Exit msg) <-> ~ recognized (TrimSpace str).
Proof.
unfold recognized, ParseFrom.
destruct (String.eqb_spec (TrimSpace str) "tail") as [E|N].
{ split; [intros [? [=]] | intros H; exfalso; apply H; auto]. }
destruct (regF (TrimSpace str)) eqn:F.
{ split; [intros [? [=]] | intros H; exfalso; apply H; auto]. }
destruct (regD (TrimSpace str)) eqn:D.
- destruct (Parse (TrimSpace str)) as [t|] eqn:P.
  + split; [intros [? [=]] | intros H; exfalso; apply H; eauto].
  + split; [|eauto]. intros _ [H | [H | [? [=]]]]; congruence.
- split; [|eauto]. intros _ [H | [H | [t P]]]; try congruence.
  unfold Parse in P. destruct (fields (TrimSpace str)) as [f|] eqn:Ff; [|discriminate P].
  assert (regD (TrimSpace str) = true) by (apply regD_fields; eauto). congruence.
Qed.

(** C9, as the claim states it, fails: the input [ tail], with a space in
  front, is not the literal [tail], not a duration and not a timestamp,
  and [ParseFrom] resolves it to [tail]. *)
Lemma untrimmed_tail_accepted :
String.eqb " tail" "tail" = false
/\ regF " tail" = false /\ regD " tail" = false
/\ ParseFrom Examples.utc " tail" = Ret "tail"%string.
Proof. repeat split; vm_compute; reflexivity. Qed.

(** C10.  [CheckAuth] returns nil whenever it returns: a failure of the
  probe ends in the interactive flow, which returns nil, ends the
  process or panics, and no error reaches the caller. *)
Theorem CheckAuth_returns_nil (e : Env) :
(CheckAuth e = Ret None
 \/ (exists msg, CheckAuth e = Exit msg)
 \/ (exists v, CheckAuth e = Panic v))
/\ (client e = None /\ probe e = None -> CheckAuth e = Ret None)
/\ (forall err, modalRun e = None -> IsGCloud e = true -> gcloudLogin e = Some err ->
      client e <> None \/ probe e <> None -> CheckAuth e = Exit err).
Proof.
unfold CheckAuth, acquire. split; [|split].
- destruct (client e), (probe e), (modalRun e), (IsGCloud e), (OAuth e) as [[]| |],
    (gcloudLogin e); cbn; eauto.
- intros [-> ->]. reflexivity.
- intros err -> -> -> [H|H].
  + destruct (client e); [reflexivity | congruence].
  + destruct (client e); [reflexivity|]. destruct (probe e); [reflexivity | congruence].
Qed.

End Claims.

(** * Further properties *)

(** ** Relative time ranges *)

Module RelativeFacts.
Import GoString GoTime TimeRange Watermark Durations.
Import FormatFacts TimeRangeFacts WatermarkFacts.

Lemma count_nonneg_from ds : forall a, 0 <= a -> forallb isDigit ds = true ->
  0 <= fold_left (fun acc c => 10 * acc + digitVal c) ds a.
Proof.
  induction ds as [|d ds IH]; intros a Ha H; cbn in *; [exact Ha|].
  apply andb_true_iff in H as [Hd H]. apply IH; [|exact H].
  pose proof (GoTimeFacts.isDigit_range d Hd). lia.
Qed.

Lemma count_nonneg ds : forallb isDigit ds = true -> 0 <= count ds.
Proof. apply count_nonneg_from. lia. Qed.

Lemma forallb_rev {A : Type} (p : A -> bool) l : forallb p (rev l) = forallb p l.
Proof.
  induction l as [|x l IH]; [reflexivity|].
  cbn. rewrite forallb_app, IH. cbn. rewrite andb_true_r. apply andb_comm.
Qed.

Lemma regF_digits_unit s ds u :
  bytes s = ds ++ [u] -> ds <> [] -> forallb isDigit ds = true -> isUnit u = true ->
  regF s = true.
Proof.
  intros E N D U. unfold regF. rewrite E, rev_app_distr. cbn [rev app].
  destruct (rev ds) as [|d r] eqn:R.
  - apply (f_equal (@rev ascii)) in R. rewrite rev_involutive in R. contradiction.
  - rewrite <- R, forallb_rev, U, D. reflexivity.
Qed.

Lemma unit_not_tail s ds u :
  bytes s = ds ++ [u] -> isUnit u = true -> String.eqb s "tail" = false.
Proof.
  intros E U. destruct (String.eqb_spec s "tail") as [->|]; [|reflexivity].
  change (bytes "tail") with (["t"; "a"; "i"]%char ++ ["l"%char]) in E.
  apply app_inj_tail in E as [_ <-]. discriminate U.
Qed.

Lemma wrap64_small z : - maxInt64 <= z <= maxInt64 -> wrap64 z = z.
Proof.
  unfold wrap64, maxInt64. change (2 ^ 63) with 9223372036854775808.
  change (2 ^ 64) with 18446744073709551616. intros H. rewrite Z.mod_small; lia.
Qed.

Lemma unit_cases u : isUnit u = true ->
  u = "s"%char \/ u = "m"%char \/ u = "d"%char \/ u = "h"%char.
Proof.
  unfold isUnit. rewrite !orb_true_iff. intros [[[H|H]|H]|H];
    apply Ascii.eqb_eq in H; auto.
Qed.

Lemma durationOf_fits u n :
  isUnit u = true -> 0 <= n -> n * unitSeconds u * 1000000000 <= maxInt64 ->
  durationOf u n = n * unitSeconds u * 1000000000.
Proof.
  intros U Hn H.
  assert (M : maxInt64 = 9223372036854775807) by reflexivity.
  assert (W : forall z, 0 <= z <= 9223372036854775807 -> wrap64 z = z)
    by (intros z Hz; apply wrap64_small; rewrite M; lia).
  rewrite M in H.
  destruct (unit_cases u U) as [-> | [-> | [-> | ->]]];
    unfold durationOf, unitSeconds, Hour, Minute, Second in *;
    cbn [Ascii.eqb Bool.eqb] in *;
    rewrite ?(W (_ * n)) by lia; rewrite ?(W (_ * 24)) by lia; lia.
Qed.

Lemma Add_whole t d :
  0 <= nsec t < 1000000000 ->
  Add t (d * 1000000000) = mkTime (sec t + d) (nsec t) (loc t).
Proof.
  intros H. unfold Add.
  rewrite Z.quot_mul, Z.rem_mul by lia. rewrite Z.add_0_r.
  destruct (Z.leb_spec 1000000000 (nsec t)); [lia|].
  destruct (Z.ltb_spec (nsec t) 0); [lia|]. reflexivity.
Qed.

Lemma ParseFrom_regF ck str ds u :
  bytes (TrimSpace str) = ds ++ [u] -> ds <> [] -> forallb isDigit ds = true ->
  isUnit u = true ->
  ParseFrom ck str
  = Ret (FormatRFC3339 ck (Add (Now ck) (wrap64 (-1 * durationOf u (ParseInt ds))))).
Proof.
  intros E N D U. unfold ParseFrom.
  rewrite (unit_not_tail _ _ _ E U), (regF_digits_unit _ _ _ E N D U), E.
  rewrite removelast_last, last_last. reflexivity.
Qed.

End RelativeFacts.

(** ** What [ParseFrom] returns *)

Module ResolveFacts.
Import GoString GoTime TimeRange Watermark Durations Reader.
Import FormatFacts TimeRangeFacts WatermarkFacts HistoricalFacts RelativeFacts.

Lemma ParseInt_fits ds : count ds <= maxInt64 -> ParseInt ds = count ds.
Proof.
  intros H. unfold ParseInt. fold (count ds).
  destruct (Z.leb_spec (count ds) maxInt64); [reflexivity | lia].
Qed.

Lemma ParseInt_saturates ds : maxInt64 < count ds -> ParseInt ds = maxInt64.
Proof.
  intros H. unfold ParseInt. fold (count ds).
  destruct (Z.leb_spec (count ds) maxInt64); [lia | reflexivity].
Qed.

Lemma unitSeconds_pos u : isUnit u = true -> 1 <= unitSeconds u.
Proof. intros U. destruct (unit_cases u U) as [-> | [-> | [-> | ->]]]; cbv; discriminate. Qed.

Lemma durationOf_saturated u :
  isUnit u = true ->
  wrap64 (-1 * durationOf u maxInt64) = unitSeconds u * 1000000000.
Proof.
  intros U. destruct (unit_cases u U) as [-> | [-> | [-> | ->]]]; vm_compute; reflexivity.
Qed.

Lemma length_zeros n : String.length (zeros n) = n.
Proof. induction n as [|n IH]; [reflexivity|]. cbn. rewrite IH. reflexivity. Qed.

Lemma appendInt_length x w : (w <= String.length (appendInt x w))%nat.
Proof.
  unfold appendInt.
  destruct (Nat.eqb w 2 && (Z.abs x <? 100)) eqn:E2.
  - apply andb_true_iff in E2 as [E2 _]. apply Nat.eqb_eq in E2 as ->.
    rewrite length_append. cbn. lia.
  - destruct (Nat.eqb w 4 && (Z.abs x <? 10000)) eqn:E4.
    + apply andb_true_iff in E4 as [E4 _]. apply Nat.eqb_eq in E4 as ->.
      rewrite length_append. cbn. lia.
    + rewrite !length_append, length_zeros. lia.
Qed.

Lemma zoneSuffix_length off : (1 <= String.length (zoneSuffix off))%nat.
Proof.
  unfold zoneSuffix. destruct (off =? 0); [cbn; lia|].
  rewrite length_append. destruct (Z.quot off 60 <? 0); cbn; lia.
Qed.

Lemma FormatRFC3339_length ck t : (20 <= String.length (FormatRFC3339 ck t))%nat.
Proof.
  unfold FormatRFC3339.
  destruct (civilOfDays _) as [[y m] d].
  rewrite !length_append.
  pose proof (appendInt_length y 4). pose proof (appendInt_length m 2).
  pose proof (appendInt_length d 2).
  pose proof (appendInt_length ((sec t + offsetOf ck t) mod 86400 / 3600) 2).
  pose proof (appendInt_length ((sec t + offsetOf ck t) mod 86400 mod 3600 / 60) 2).
  pose proof (appendInt_length ((sec t + offsetOf ck t) mod 86400 mod 60) 2).
  pose proof (zoneSuffix_length (offsetOf ck t)).
  cbn [String.length]. lia.
Qed.

Lemma ParseFrom_Ret ck str r :
  ParseFrom ck str = Ret r ->
  (TrimSpace str = "tail"%string /\ r = "tail"%string)
  \/ (TrimSpace str <> "tail"%string /\ exists t, r = FormatRFC3339 ck t).
Proof.
  unfold ParseFrom. destruct (String.eqb_spec (TrimSpace str) "tail") as [E|N].
  - intros [= <-]. left. auto.
  - intros H. right. split; [exact N|].
    destruct (regF (TrimSpace str)).
    + injection H as <-. eauto.
    + destruct (regD (TrimSpace str)); [|discriminate H].
      destruct (Parse (TrimSpace str)); [|discriminate H].
      injection H as <-. eauto.
Qed.

End ResolveFacts.

(** ** [strings.TrimSpace] *)

Module TrimFacts.
Import GoString GoTime TimeRange Blank.
Import FormatFacts.

Lemma dropSpace_1 c : dropSpace [c] = if asciiSpace c then Some [] else None.
Proof. unfold dropSpace. destruct (asciiSpace c); [reflexivity|]. zcases c. Qed.

Lemma dropSpace_2 c d :
  dropSpace [c; d]
  = if asciiSpace c then Some [d] else if space2 c d then Some [] else None.
Proof.
  unfold dropSpace. destruct (asciiSpace c); [reflexivity|]. unfold space2.
  zcases c; zcases d.
Qed.

Lemma dropSpace_3 c d e r :
  dropSpace (c :: d :: e :: r)
  = if asciiSpace c then Some (d :: e :: r)
    else if space2 c d then Some (e :: r)
    else if space3 c d e then Some r else None.
Proof.
  unfold dropSpace. destruct (asciiSpace c); [reflexivity|].
  unfold space2, space3.
  zcases c; zcases d; cbn [andb orb Z.eqb Pos.eqb]; rewrite ?orb_false_r; try reflexivity.
  all: zcases e.
Qed.

Lemma dropSpace_ascii c r : asciiSpace c = true -> dropSpace (c :: r) = Some r.
Proof. intros H. unfold dropSpace. rewrite H. reflexivity. Qed.

Lemma dropSpaceRev_ascii c r : asciiSpace c = true -> dropSpaceRev (c :: r) = Some r.
Proof. intros H. unfold dropSpaceRev. rewrite H. reflexivity. Qed.

Lemma space2_ascii c d : asciiSpace d = true -> space2 c d = false.
Proof.
  unfold space2, asciiSpace. intros H. apply not_true_is_false. intros T.
  rewrite ?orb_true_iff, ?andb_true_iff, ?Z.eqb_eq, ?Z.leb_le in *. lia.
Qed.

Lemma space3_ascii_2 c d e : asciiSpace d = true -> space3 c d e = false.
Proof.
  unfold space3, asciiSpace. intros H. apply not_true_is_false. intros T.
  rewrite ?orb_true_iff, ?andb_true_iff, ?Z.eqb_eq, ?Z.leb_le in *. lia.
Qed.

Lemma space3_ascii_3 c d e : asciiSpace e = true -> space3 c d e = false.
Proof.
  unfold space3, asciiSpace. intros H. apply not_true_is_false. intros T.
  rewrite ?orb_true_iff, ?andb_true_iff, ?Z.eqb_eq, ?Z.leb_le in *. lia.
Qed.

(** A rune dropped from the front stays dropped when bytes follow. *)
Lemma dropSpace_app l r q :
  dropSpace l = Some r ->
  dropSpace (l ++ q) = Some (r ++ q) /\ (length r < length l)%nat.
Proof.
  destruct l as [|c [|d [|e l]]]; intros H.
  - discriminate H.
  - rewrite dropSpace_1 in H. destruct (asciiSpace c) eqn:A; [|discriminate H].
    injection H as <-. split; [apply dropSpace_ascii, A | cbn; lia].
  - rewrite dropSpace_2 in H. destruct (asciiSpace c) eqn:A.
    { injection H as <-. split; [apply dropSpace_ascii, A | cbn; lia]. }
    destruct (space2 c d) eqn:S2; [|discriminate H]. injection H as <-.
    split; [|cbn; lia]. destruct q as [|e q]; cbn [app].
    + now rewrite dropSpace_2, A, S2.
    + now rewrite dropSpace_3, A, S2.
  - change ((c :: d :: e :: l) ++ q) with (c :: d :: e :: (l ++ q)).
    rewrite dropSpace_3 in *.
    destruct (asciiSpace c); [injection H as <-; split; [reflexivity | cbn; lia]|].
    destruct (space2 c d); [injection H as <-; split; [reflexivity | cbn; lia]|].
    destruct (space3 c d e); [|discriminate H].
    injection H as <-. split; [reflexivity | cbn; lia].
Qed.

(** ASCII white space after a byte sequence completes no rune of it. *)
Lemma dropSpace_app_None l q :
  dropSpace l = None -> l <> [] -> Forall (fun c => asciiSpace c = true) q ->
  dropSpace (l ++ q) = None.
Proof.
  destruct l as [|c [|d [|e l]]]; intros H N F.
  - contradiction.
  - rewrite dropSpace_1 in H. destruct (asciiSpace c) eqn:A; [discriminate H|].
    destruct F as [|d q Hd F]; cbn [app]; [now rewrite dropSpace_1, A|].
    destruct F as [|e q He F].
    + now rewrite dropSpace_2, A, (space2_ascii c d Hd).
    + now rewrite dropSpace_3, A, (space2_ascii c d Hd), (space3_ascii_2 c d e Hd).
  - rewrite dropSpace_2 in H. destruct (asciiSpace c) eqn:A; [discriminate H|].
    destruct (space2 c d) eqn:S2; [discriminate H|].
    destruct F as [|e q He F]; cbn [app].
    + now rewrite dropSpace_2, A, S2.
    + now rewrite dropSpace_3, A, S2, (space3_ascii_3 c d e He).
  - change ((c :: d :: e :: l) ++ q) with (c :: d :: e :: (l ++ q)).
    rewrite dropSpace_3 in *.
    destruct (asciiSpace c); [discriminate H|].
    destruct (space2 c d); [discriminate H|].
    destruct (space3 c d e); [discriminate H | reflexivity].
Qed.

Section Dropping.
Variable drop : list Z -> option (list Z).
Hypothesis drop_ascii : forall c r, asciiSpace c = true -> drop (c :: r) = Some r.
Hypothesis drop_nil : drop [] = None.

Lemma trimWith_front p x :
  Forall (fun c => asciiSpace c = true) p ->
  trimWith drop (length (p ++ x)) (p ++ x) = trimWith drop (length x) x.
Proof.
  intros F. induction F as [|c p Hc F IH]; [reflexivity|].
  cbn [app length trimWith]. rewrite (drop_ascii c _ Hc). exact IH.
Qed.

Lemma trimWith_blank q : forall n,
  Forall (fun c => asciiSpace c = true) q -> (length q <= n)%nat ->
  trimWith drop n q = [].
Proof.
  induction q as [|c q IH]; intros n F L.
  - destruct n; cbn [trimWith]; [reflexivity|]. now rewrite drop_nil.
  - destruct n as [|n]; [cbn in L; lia|]. apply Forall_cons in F as [Hc F].
    cbn [trimWith]. rewrite (drop_ascii c _ Hc). apply IH; [exact F | cbn in L; lia].
Qed.

End Dropping.

Lemma trimWith_app q :
  Forall (fun c => asciiSpace c = true) q ->
  forall n l, (length l <= n)%nat ->
    trimWith dropSpace (n + length q) (l ++ q)
    = match trimWith dropSpace n l with
      | [] => []
      | t => t ++ q
      end.
Proof.
  intros F. induction n as [|n IH]; intros l L.
  - destruct l; [|cbn in L; lia]. cbn [app Nat.add trimWith].
    apply (trimWith_blank dropSpace dropSpace_ascii eq_refl); [exact F | lia].
  - cbn [Nat.add trimWith]. destruct (dropSpace l) as [r|] eqn:D.
    + destruct (dropSpace_app l r q D) as [-> Lr]. apply IH. lia.
    + destruct l as [|c l].
      * cbn [app]. change (dropSpace q) with (dropSpace q).
        pose proof (trimWith_blank dropSpace dropSpace_ascii eq_refl q
                      (S (n + length q)) F ltac:(lia)) as B.
        cbn [trimWith] in B. exact B.
      * rewrite (dropSpace_app_None (c :: l) q D ltac:(discriminate) F). reflexivity.
Qed.

Lemma trim_blank_back l q :
  Forall (fun c => asciiSpace c = true) q ->
  trimRight (trimLeft (l ++ q)) = trimRight (trimLeft l).
Proof.
  intros F. unfold trimLeft. rewrite length_app, (trimWith_app q F) by lia.
  destruct (trimWith dropSpace (length l) l) as [|c t]; [reflexivity|].
  unfold trimRight. f_equal.
  rewrite rev_app_distr, <- (length_rev (_ ++ _)), rev_app_distr.
  rewrite (trimWith_front dropSpaceRev dropSpaceRev_ascii).
  - now rewrite length_rev.
  - apply Forall_rev. exact F.
Qed.

Lemma trim_blank_front p l :
  Forall (fun c => asciiSpace c = true) p ->
  trimLeft (p ++ l) = trimLeft l.
Proof. intros F. apply (trimWith_front dropSpace dropSpace_ascii). exact F. Qed.

Lemma codes_append a b : codes (a +:+ b) = codes a ++ codes b.
Proof. unfold codes. rewrite bytes_append. apply map_app. Qed.

Lemma blank_codes ws : blank ws = true -> Forall (fun c => asciiSpace c = true) (codes ws).
Proof.
  unfold blank, codes. induction (bytes ws) as [|c l IH]; cbn; intros H; [constructor|].
  apply andb_true_iff in H as [H1 H2]. constructor; [exact H1 | apply IH, H2].
Qed.

Lemma TrimSpace_blanks ws1 str ws2 :
  blank ws1 = true -> blank ws2 = true ->
  TrimSpace (ws1 +:+ str +:+ ws2) = TrimSpace str.
Proof.
  intros B1 B2. unfold TrimSpace. rewrite !codes_append.
  rewrite (trim_blank_front _ _ (blank_codes ws1 B1)).
  rewrite (trim_blank_back _ _ (blank_codes ws2 B2)). reflexivity.
Qed.

Lemma Parse_UTC s t : Parse s = Some t -> loc t = UTC.
Proof.
  unfold Parse. destruct (fields s) as [[[[[[y m] d] h] mi] sc]|]; [|discriminate].
  destruct (inRange _); [|discriminate]. now intros [= <-].
Qed.

Lemma FormatRFC3339_UTC ck1 ck2 t : loc t = UTC -> FormatRFC3339 ck1 t = FormatRFC3339 ck2 t.
Proof. intros H. unfold FormatRFC3339, offsetOf. rewrite H. reflexivity. Qed.

End TrimFacts.

(** ** The map of [massageEntryLog] *)

Module RecordFacts.
Import Json Logging Normalizer Record JsonFacts NormalizerFacts.

Lemma store_member kvs : forall m k,
  fold_left store kvs m !! k
  = match member k kvs with Some d => Some (decode d) | None => m !! k end.
Proof.
  induction kvs as [|[k' d] kvs IH] using rev_ind; intros m k; [reflexivity|].
  rewrite fold_left_app. cbn [fold_left]. unfold member. rewrite rev_app_distr.
  cbn [rev app find fst]. unfold store at 1. cbn [fst snd].
  destruct (String.eqb_spec k' k) as [->|N].
  - rewrite lookup_insert_eq. reflexivity.
  - rewrite lookup_insert_ne by exact N. apply IH.
Qed.

Lemma assertMapIndex_decoded x k v :
  decoded x -> assertMapIndex (Some x) k = Ret v -> decoded v.
Proof.
  intros [d ->] H. destruct d; try discriminate H.
  cbn [decode assertMapIndex] in H. injection H as <-.
  induction kvs as [|[k' d'] kvs IH]; cbn [map find fst snd]; [apply decoded_Nil|].
  destruct (String.eqb k' k); [eexists; reflexivity | exact IH].
Qed.

(** The map [m] of [massageEntryLog] when the entry normalises: what
    [json.Unmarshal] stored, with [severity] and [timestamp] set and at
    most one payload key added. *)
Lemma massageEntryLog_map ck resp b lt :
  massageEntryLog ck resp = Ret (b, lt) ->
  exists kvs (m3 : gmap string value),
    Marshal_LogEntry resp = Some kvs
    /\ lt = stampText ck resp
    /\ b = Object (omap encode (delete "receive_timestamp"%string
                                  (delete "Payload"%string m3)))
    /\ map_Forall (fun _ v => decoded v) m3
    /\ forall k, k <> "jsonPayload"%string -> k <> "textPayload"%string ->
         m3 !! k
         = <["timestamp"%string := Str (stampText ck resp)]>
             (<["severity"%string := Str (LogSeverity_String (Severity resp))]>
                (fold_left store kvs ∅)) !! k.
Proof.
  intros H. pose proof (massageEntryLog_spec ck resp) as S.
  pose proof (Marshal_LogEntry_members resp) as M.
  destruct (marshalPayload (Payload resp)) as [p|]; [|rewrite S in H; discriminate H].
  clear S. destruct M as (a & b0 & E & _). exists (a ++ ("Payload"%string, p) :: b0).
  unfold massageEntryLog in H. fold (stampText ck resp) in H.
  rewrite E, Unmarshal_Some in H. unfold GetSeverity in H.
  set (kvs := a ++ ("Payload"%string, p) :: b0) in *.
  set (m2 := <["timestamp"%string := Str (stampText ck resp)]>
               (<["severity"%string := Str (LogSeverity_String (Severity resp))]>
                  (fold_left store kvs ∅))) in *.
  assert (D2 : map_Forall (fun _ v => decoded v) m2).
  { apply map_Forall_insert_2; [apply decoded_Str|].
    apply map_Forall_insert_2; [apply decoded_Str|].
    apply store_decoded, map_Forall_empty. }
  assert (Fin : forall m3 : gmap string value,
             map_Forall (fun _ v => decoded v) m3 ->
             obind (Ret m3)
               (fun m =>
                  Ret (match Marshal (delete "receive_timestamp"%string
                                        (delete "Payload"%string m)) with
                       | Some o => Object o
                       | None => Empty
                       end, stampText ck resp)) = Ret (b, lt) ->
             lt = stampText ck resp
             /\ b = Object (omap encode (delete "receive_timestamp"%string
                                           (delete "Payload"%string m3)))).
  { intros m3 D3 R. cbn [obind] in R.
    rewrite Marshal_decoded in R by (do 2 apply map_Forall_delete; exact D3).
    injection R as <- <-. split; reflexivity. }
  assert (Hoist : forall key k',
             obind (obind (assertMapIndex (m2 !! "Payload"%string) k')
                      (fun v => Ret (<[key := v]> m2)))
               (fun m =>
                  Ret (match Marshal (delete "receive_timestamp"%string
                                        (delete "Payload"%string m)) with
                       | Some o => Object o
                       | None => Empty
                       end, stampText ck resp)) = Ret (b, lt) ->
             exists v, decoded v
               /\ lt = stampText ck resp
               /\ b = Object (omap encode (delete "receive_timestamp"%string
                                             (delete "Payload"%string (<[key := v]> m2)))    )).
  { intros key k' R.
    destruct (m2 !! "Payload"%string) as [x|] eqn:L; [|discriminate R].
    destruct (assertMapIndex (Some x) k') as [v| |] eqn:A; try discriminate R.
    assert (Dv : decoded v)
      by (eapply assertMapIndex_decoded; [exact (D2 _ _ L) | exact A]).
    exists v. split; [exact Dv|]. apply Fin; [|exact R].
    apply map_Forall_insert_2; assumption. }
  destruct (decide (GetJsonPayload resp <> None)) as [J|J].
  - apply Hoist in H as (v & Dv & -> & ->).
    exists (<["jsonPayload"%string := v]> m2). split; [exact E|].
    split; [reflexivity|]. split; [reflexivity|].
    split; [apply map_Forall_insert_2; assumption|].
    intros k N1 N2. apply lookup_insert_ne. congruence.
  - destruct (0 <? Z.of_nat (String.length (GetTextPayload resp))).
    + apply Hoist in H as (v & Dv & -> & ->).
      exists (<["textPayload"%string := v]> m2). split; [exact E|].
      split; [reflexivity|]. split; [reflexivity|].
      split; [apply map_Forall_insert_2; assumption|].
      intros k N1 N2. apply lookup_insert_ne. congruence.
    + apply Fin in H as [-> ->]; [|exact D2].
      exists m2. split; [exact E|]. repeat split; try reflexivity. exact D2.
Qed.

End RecordFacts.

(** ** Requests and the Watermark *)

Module RequestFacts.
Import Json Logging Normalizer Reader Trace Requests.
Import RunFacts HistoricalFacts ProducerFacts SessionFacts.

Lemma last_cons {A : Type} (x d : A) l : List.last (x :: l) d = List.last l x.
Proof.
  revert x d. induction l as [|y l IH]; intros x d; [reflexivity|].
  change (List.last (y :: l) d = List.last (y :: l) x).
  rewrite (IH y d), (IH y x). reflexivity.
Qed.

Lemma asksAfter_app s a : forall lt b,
  asksAfter s lt a -> asksAfter s (List.last (marks a) lt) b -> asksAfter s lt (a ++ b).
Proof.
  induction a as [|e a IH]; intros lt b Ha Hb; [exact Hb|].
  destruct e; cbn [app asksAfter marks] in *;
    try (apply IH; assumption);
    try (destruct Ha as [Ha1 Ha2]; split; [exact Ha1 | apply IH; assumption]).
  apply IH; [exact Ha|]. rewrite last_cons in Hb. exact Hb.
Qed.

Lemma asksAfter_quiet s l : Forall noQuery l -> forall lt, asksAfter s lt l.
Proof.
  intros F. induction F as [|e l He F IH]; intros lt; [exact I|].
  destruct e; cbn in *; try contradiction; apply IH.
Qed.

Lemma inner_noQuery l : Forall inner l -> Forall noQuery l.
Proof. intros F. eapply Forall_impl; [exact F|]. intros []; cbn; tauto. Qed.

Lemma afterTail_noQuery l : Forall afterTail l -> Forall noQuery l.
Proof. intros F. eapply Forall_impl; [exact F|]. intros []; cbn; tauto. Qed.

Lemma isReport_noQuery l : Forall isReport l -> Forall noQuery l.
Proof. intros F. eapply Forall_impl; [exact F|]. intros []; cbn; tauto. Qed.

Lemma marks_sends l : Forall isSend l -> marks l = [].
Proof.
  intros F. induction F as [|e l He F IH]; [reflexivity|].
  destruct e; cbn in *; try contradiction; exact IH.
Qed.

Section Session.
Variable ck : GoTime.Clock.
Variable s : gcpStream.
Variable c : Backend.

(** Where the inner loop leaves [lastTime]: at the last value it was
    moved to. *)
Lemma drain_last es : forall lt w lt',
  endOf (drain ck es lt w) = Done lt' ->
  List.last (marks (events (drain ck es lt w))) lt = lt'.
Proof.
  induction es as [|resp es IH]; intros lt w lt' H.
  - cbn in H. injection H as <-. reflexivity.
  - cbn [drain] in *. rewrite bind_emit in *. cbn [events endOf fst snd marks] in *.
    destruct (bind_cases (call (massageEntryLog ck resp))
                (fun r => emit (Mark (snd r));;; send (fst r);;; drain ck es (snd r)) w)
      as [(r & _ & E) | (_ & E)]; rewrite E in *; clear E; cbn [events endOf fst snd] in *.
    2:{ exfalso. exact (carry_not_Done _ _ H). }
    rewrite call_events, call_world in *. cbn [app] in *.
    rewrite bind_emit in *. cbn [events endOf fst snd marks] in *.
    rewrite last_cons.
    destruct (bind_cases (send (fst r)) (fun _ => drain ck es (snd r)) w)
      as [(u & _ & E) | (_ & E)]; rewrite E in *; clear E; cbn [events endOf fst snd] in *.
    2:{ exfalso. exact (carry_not_Done _ _ H). }
    rewrite marks_app, (marks_sends _ (send_isSend (fst r) w)). cbn [app].
    apply IH. exact H.
Qed.

Lemma streamFromLoop_asks fuel : forall k lt lf w,
  asksAfter s lt (events (streamFromLoop ck s c fuel k lt lf w)).
Proof.
  induction fuel as [|fuel IH]; intros k lt lf w; [exact I|].
  cbn [streamFromLoop].
  rewrite (bind_Done _ _ _ _ _ _ (readStop_run w)).
  destruct (stop (tick w)); [exact I|].
  rewrite bind_emit.
  destruct (String.eqb (timestampFilter lt) lf); [cbn; auto|].
  rewrite bind_emit. fold (request s lt).
  cbn [events world endOf fst snd app asksAfter].
  split; [reflexivity|]. split; [reflexivity|].
  match goal with
  | |- context [bind (drain ck ?es lt) ?kk (tick w)] =>
      pose proof (drain_inner ck es lt (tick w)) as Hin;
      pose proof (drain_last es lt (tick w)) as Hl;
      destruct (bind_cases (drain ck es lt) kk (tick w))
        as [(lt' & Ed & ->) | (_ & ->)]
  end; cbn [events fst].
  - apply asksAfter_app; [apply asksAfter_quiet, inner_noQuery, Hin|].
    rewrite (Hl lt' Ed).
    destruct (Reader.ending _); [exact I | apply IH].
  - apply asksAfter_quiet, inner_noQuery, Hin.
Qed.

Lemma producer_asks fuel w :
  asksAfter s (freshness s) (events (producer ck s c fuel w)).
Proof.
  destruct (isTail s) eqn:Ht.
  - destruct (producer_tail ck s c fuel w Ht) as (rest & -> & F).
    apply asksAfter_quiet. constructor; [exact I | apply afterTail_noQuery, F].
  - pose proof (streamFromLoop_asks fuel 0 (freshness s) EmptyString w) as Q.
    fold (streamFrom ck s c fuel w) in Q.
    destruct (producer_shape ck s c fuel w Ht) as [(_ & r & -> & F) | (_ & r & -> & F)].
    + apply asksAfter_app; [exact Q|]. apply asksAfter_quiet.
      constructor; [exact I | apply afterTail_noQuery, F].
    + apply asksAfter_app; [exact Q|]. apply asksAfter_quiet, isReport_noQuery, F.
Qed.

End Session.

End RequestFacts.

(** ** The historical loop, iteration by iteration *)

Module LoopFacts.
Import Json Logging Normalizer Reader Trace Requests.
Import RunFacts HistoricalFacts ProducerFacts SessionFacts.

Lemma queries_app a b : queries (a ++ b) = queries a ++ queries b.
Proof.
  induction a as [|e a IH]; [reflexivity|]. destruct e; cbn; rewrite ?IH; reflexivity.
Qed.

Lemma queries_quiet l : Forall noQuery l -> queries l = [].
Proof.
  intros F. induction F as [|e l He F IH]; [reflexivity|].
  destruct e; cbn in *; try contradiction; exact IH.
Qed.

Section Session.
Variable ck : GoTime.Clock.
Variable s : gcpStream.
Variable c : Backend.

(** One iteration of the historical loop. *)
Lemma streamFromLoop_S fuel k lt lf :
  streamFromLoop ck s c (S fuel) k lt lf
  = (stopped <- readStop ;;
     if (stopped : bool) then ret None
     else
       emit (Built (timestampFilter lt)) ;;;
       if String.eqb (timestampFilter lt) lf then ret None
       else
         emit (Query (request s lt)) ;;;
         lastTime' <- drain ck (entries (ListLogEntries c k (request s lt))) lt ;;
         match Reader.ending (ListLogEntries c k (request s lt)) with
         | Some err => ret (Some err)
         | None => streamFromLoop ck s c fuel (S k) lastTime' (timestampFilter lt)
         end).
Proof. reflexivity. Qed.

(** An iteration that starts with the filter of the one before it makes
    no request. *)
Lemma streamFromLoop_same fuel k lt w :
  queries (events (streamFromLoop ck s c fuel k lt (timestampFilter lt) w)) = [].
Proof.
  destruct fuel as [|fuel]; [reflexivity|]. rewrite streamFromLoop_S.
  rewrite (bind_Done _ _ _ _ _ _ (readStop_run w)).
  destruct (stop (tick w)); [reflexivity|].
  rewrite bind_emit, String.eqb_refl. reflexivity.
Qed.

(** After a listing without entries no further request is made. *)
Lemma streamFromLoop_bound j :
  (forall req, entries (ListLogEntries c j req) = []) ->
  forall fuel k lt lf w, (k <= j)%nat ->
    (length (queries (events (streamFromLoop ck s c fuel k lt lf w))) + k <= j + 1)%nat.
Proof.
  intros Hj. induction fuel as [|fuel IH]; intros k lt lf w Hk; [cbn; lia|].
  rewrite streamFromLoop_S.
  rewrite (bind_Done _ _ _ _ _ _ (readStop_run w)).
  destruct (stop (tick w)); [cbn; lia|].
  rewrite bind_emit.
  destruct (String.eqb (timestampFilter lt) lf); [cbn; lia|].
  rewrite bind_emit. cbn [events world endOf fst snd app queries length].
  destruct (Nat.eq_dec k j) as [->|N].
  - rewrite Hj. cbn [drain]. rewrite bind_ret.
    destruct (Reader.ending _); [cbn; lia|].
    rewrite streamFromLoop_same. cbn. lia.
  - match goal with
    | |- context [bind (drain ck ?es lt) ?kk (tick w)] =>
        pose proof (drain_inner ck es lt (tick w)) as Hin;
        destruct (bind_cases (drain ck es lt) kk (tick w))
          as [(lt' & _ & ->) | (_ & ->)]
    end; cbn [events fst].
    + rewrite queries_app, (queries_quiet _ (RequestFacts.inner_noQuery _ Hin)).
      cbn [app]. destruct (Reader.ending _); [cbn; lia|].
      specialize (IH (S k) lt' (timestampFilter lt)
                    (world (drain ck (entries (ListLogEntries c k (request s lt))) lt
                              (tick w))) ltac:(lia)).
      lia.
    + rewrite (queries_quiet _ (RequestFacts.inner_noQuery _ Hin)). cbn. lia.
Qed.

Lemma producer_bound j fuel w :
  (forall req, entries (ListLogEntries c j req) = []) ->
  (length (queries (events (producer ck s c fuel w))) <= j + 1)%nat.
Proof.
  intros Hj. destruct (isTail s) eqn:Ht.
  - destruct (producer_tail ck s c fuel w Ht) as (rest & -> & F).
    cbn [queries]. rewrite (queries_quiet _ (RequestFacts.afterTail_noQuery _ F)). cbn. lia.
  - pose proof (streamFromLoop_bound j Hj fuel 0 (freshness s) EmptyString w ltac:(lia)) as B.
    fold (streamFrom ck s c fuel w) in B.
    destruct (producer_shape ck s c fuel w Ht) as [(_ & r & -> & F) | (_ & r & -> & F)];
      rewrite queries_app.
    + cbn [queries]. rewrite (queries_quiet _ (RequestFacts.afterTail_noQuery _ F)).
      rewrite app_nil_r. lia.
    + rewrite (queries_quiet _ (RequestFacts.isReport_noQuery _ F)), app_nil_r. lia.
Qed.

End Session.

End LoopFacts.

(** ** Records and entries *)

Module DeliveryFacts.
Import Json Logging Normalizer Reader Trace Record Requests Delivery.
Import RunFacts HistoricalFacts ProducerFacts SessionFacts LoopFacts.

Lemma sent_app a b : sent (a ++ b) = sent a ++ sent b.
Proof.
  induction a as [|e a IH]; [reflexivity|]. destruct e; cbn; rewrite ?IH; reflexivity.
Qed.


Lemma returned_carry {A B : Type} (o : ending_of A) : returned (@carry A B o) = false.
Proof. destruct o; reflexivity. Qed.

Lemma recordsOf_nil ck whole : recordsOf ck whole [] [].
Proof. exists [], []. repeat split; cbn; auto; lia. Qed.

Lemma recordsOf_pending ck resp : recordsOf ck false [] [resp].
Proof. exists [], [resp]. repeat split; cbn; auto; discriminate. Qed.

Lemma recordsOf_cons ck whole b resp bs es :
  record ck resp = Some b -> recordsOf ck whole bs es ->
  recordsOf ck whole (b :: bs) (resp :: es).
Proof.
  intros R (es1 & es2 & -> & M & L & W). exists (resp :: es1), es2.
  split; [reflexivity|]. split; [cbn; rewrite R, M; reflexivity|]. split; assumption.
Qed.

Lemma recordsOf_app ck whole bs1 es1 bs2 es2 :
  recordsOf ck true bs1 es1 -> recordsOf ck whole bs2 es2 ->
  recordsOf ck whole (bs1 ++ bs2) (es1 ++ es2).
Proof.
  intros (a1 & a2 & -> & M1 & _ & W1) (b1 & b2 & -> & M2 & L2 & W2).
  rewrite (W1 eq_refl), app_nil_r. exists (a1 ++ b1), b2.
  split; [apply app_assoc|]. split; [rewrite !map_app, M1, M2; reflexivity|].
  split; assumption.
Qed.

Lemma recordsOf_weaken ck bs es : recordsOf ck true bs es -> forall whole, recordsOf ck whole bs es.
Proof.
  intros (a1 & a2 & -> & M & L & W) whole. exists a1, a2. repeat split; auto.
Qed.

Lemma send_Done b w u : endOf (send b w) = Done u -> events (send b w) = [Send b].
Proof. unfold send. destruct (closed (tick w)); [discriminate | reflexivity]. Qed.

Lemma send_stuck b w : (forall u, endOf (send b w) <> Done u) -> events (send b w) = [].
Proof.
  unfold send. destruct (closed (tick w)); [reflexivity|].
  intros N. exfalso. exact (N tt eq_refl).
Qed.


Section Session.
Variable ck : GoTime.Clock.
Variable s : gcpStream.
Variable c : Backend.

Lemma record_Ret resp r : massageEntryLog ck resp = Ret r -> record ck resp = Some (fst r).
Proof. unfold record. now intros ->. Qed.

Lemma drain_records es : forall lt w,
  recordsOf ck (returned (endOf (drain ck es lt w)))
    (sent (events (drain ck es lt w))) (received (events (drain ck es lt w))).
Proof.
  induction es as [|resp es IH]; intros lt w; [apply recordsOf_nil|].
  cbn [drain]. rewrite bind_emit. cbn [events endOf fst snd sent received].
  destruct (bind_cases (call (massageEntryLog ck resp))
              (fun r => emit (Mark (snd r));;; send (fst r);;; drain ck es (snd r)) w)
    as [(r & Er & ->) | (_ & ->)]; cbn [events endOf fst snd];
    rewrite call_events; cbn [app sent received].
  2:{ rewrite returned_carry. apply recordsOf_pending. }
  apply call_Done in Er. rewrite call_world.
  rewrite bind_emit. cbn [events endOf fst snd sent received].
  destruct (bind_cases (send (fst r)) (fun _ => drain ck es (snd r)) w)
    as [(u & Eu & ->) | (Nu & ->)]; cbn [events endOf fst snd].
  - rewrite (send_Done _ _ _ Eu). cbn [app sent received].
    apply recordsOf_cons; [apply record_Ret, Er | apply IH].
  - rewrite (send_stuck _ _ Nu), returned_carry. apply recordsOf_pending.
Qed.

Lemma streamFromLoop_records fuel : forall k lt lf w,
  let r := streamFromLoop ck s c fuel k lt lf w in
  recordsOf ck (returned (endOf r)) (sent (events r)) (received (events r)).
Proof.
  induction fuel as [|fuel IH]; intros k lt lf w; cbv zeta; [apply recordsOf_nil|].
  rewrite streamFromLoop_S.
  rewrite (bind_Done _ _ _ _ _ _ (readStop_run w)).
  destruct (stop (tick w)); [apply recordsOf_nil|].
  rewrite bind_emit.
  destruct (String.eqb (timestampFilter lt) lf); [apply recordsOf_nil|].
  rewrite bind_emit. cbn [events world endOf fst snd app sent received].
  match goal with
  | |- context [bind (drain ck ?es lt) ?kk (tick w)] =>
      pose proof (drain_records es lt (tick w)) as Hd;
      destruct (bind_cases (drain ck es lt) kk (tick w))
        as [(lt' & Ed & ->) | (_ & ->)]
  end; cbn [events endOf fst snd].
  - rewrite Ed in Hd. cbn [returned] in Hd.
    rewrite sent_app, received_app. apply recordsOf_app; [exact Hd|].
    destruct (Reader.ending _); [apply recordsOf_nil | apply IH].
  - rewrite returned_carry.
    destruct (endOf (drain ck _ lt (tick w))); cbn [returned] in Hd;
      try exact Hd. apply recordsOf_weaken. exact Hd.
Qed.

(** The tail loop. *)
Lemma forward_records es : forall w,
  let r := forward ck es w in
  (exists es1 es2, es = es1 ++ es2
     /\ map Some (sent (events r)) = map (record ck) es1
     /\ (returned (endOf r) = true -> es2 = []))
  /\ (closeIn w = None -> closed w = false ->
      Forall (fun e => is_Some (record ck e)) es ->
      endOf r = Done tt /\ world r = w).
Proof.
  induction es as [|resp es IH]; intros w; cbv zeta.
  { split; [exists [], []; auto | auto]. }
  cbn [forward].
  destruct (bind_cases (call (massageEntryLog ck resp))
              (fun r => send (fst r);;; forward ck es) w)
    as [(r & Er & ->) | (Nr & ->)]; cbn [events world endOf fst snd];
    rewrite call_events, ?call_world; cbn [app].
  2:{ split.
      - exists [], (resp :: es). rewrite returned_carry. repeat split. discriminate.
      - intros _ _ F. exfalso. apply Forall_cons in F as [[b Hb] _].
        unfold record in Hb.
        destruct (massageEntryLog ck resp) as [r| |] eqn:Em; try discriminate Hb.
        exact (Nr r eq_refl). }
  apply call_Done in Er.
  destruct (bind_cases (send (fst r)) (fun _ => forward ck es) w)
    as [(u & Eu & ->) | (Nu & ->)]; cbn [events world endOf fst snd].
  - rewrite (send_Done _ _ _ Eu), sent_app. cbn [sent app].
    destruct (IH (world (send (fst r) w))) as [(es1 & es2 & -> & M & W) G]. split.
    + exists (resp :: es1), es2. split; [reflexivity|].
      split; [cbn [map]; rewrite (record_Ret _ _ Er), M; reflexivity | exact W].
    + intros Hc Ho F. apply Forall_cons in F as [_ F].
      rewrite (send_quiet _ _ Hc) in G |- *. apply G; assumption.
  - rewrite (send_stuck _ _ Nu). split.
    + exists [], (resp :: es). rewrite returned_carry. repeat split. discriminate.
    + intros Hc Ho _. exfalso. apply (Nu tt).
      unfold send. rewrite (tick_quiet _ Hc), Ho. reflexivity.
Qed.

Lemma recvLoop_records chunks : forall w,
  let r := recvLoop ck c chunks w in
  (exists es1 es2, concat chunks = es1 ++ es2
     /\ map Some (sent (events r)) = map (record ck) es1
     /\ (returned (endOf r) = true -> es2 = []))
  /\ (closeIn w = None -> closed w = false ->
      Forall (fun e => is_Some (record ck e)) (concat chunks) ->
      map Some (sent (events r)) = map (record ck) (concat chunks)
      /\ endOf r = match tailEnd c with
                   | EOF => Done None
                   | RecvError e => Done (Some e)
                   | Silent => Blocked
                   end).
Proof.
  induction chunks as [|chunk rest IH]; intros w; cbv zeta.
  { cbn [recvLoop concat]. split.
    - exists [], []. destruct (tailEnd c); auto.
    - intros _ _ _. destruct (tailEnd c); auto. }
  cbn [recvLoop concat].
  destruct (forward_records chunk w) as [(a1 & a2 & Ea & Ma & Wa) Ga].
  destruct (bind_cases (forward ck chunk) (fun _ => recvLoop ck c rest) w)
    as [(u & Eu & ->) | (Nu & ->)]; cbn [events world endOf fst snd].
  - rewrite Eu in Wa. rewrite (Wa eq_refl), app_nil_r in Ea. subst a1.
    destruct (IH (world (forward ck chunk w))) as [(b1 & b2 & Eb & Mb & Wb) Gb]. split.
    + exists (chunk ++ b1), b2. rewrite Eb, sent_app, !map_app, Ma, Mb.
      split; [apply app_assoc|]. split; [reflexivity | exact Wb].
    + intros Hc Ho F. apply Forall_app in F as [F1 F2].
      destruct (Ga Hc Ho F1) as [_ Ew]. rewrite Ew in Gb |- *.
      destruct (Gb Hc Ho F2) as [M E]. rewrite sent_app, !map_app, Ma, M.
      split; [reflexivity | exact E].
  - split.
    + exists a1, (a2 ++ concat rest). rewrite returned_carry.
      split; [rewrite Ea; symmetry; apply app_assoc|]. split; [exact Ma | discriminate].
    + intros Hc Ho F. apply Forall_app in F as [F1 _].
      destruct (Ga Hc Ho F1) as [Ed _]. exfalso. exact (Nu tt Ed).
Qed.






End Session.

End DeliveryFacts.

(** ** Sends and [Close] *)

Module RoomFacts.
Import Json Logging Normalizer Reader Trace Record Requests Delivery.
Import RunFacts HistoricalFacts ProducerFacts SessionFacts LoopFacts DeliveryFacts.

Lemma withinRoom_bind {A B : Type} (m : run A) (k : A -> run B) :
  withinRoom m -> (forall a, withinRoom (k a)) -> withinRoom (bind m k).
Proof.
  intros Hm Hk w n R. destruct (Hm w n R) as (n1 & R1 & L1).
  destruct (bind_cases m k w) as [(a & _ & ->) | (_ & ->)]; cbn [events world fst snd].
  - destruct (Hk a _ n1 R1) as (n2 & R2 & L2). exists n2. split; [exact R2|].
    rewrite sent_app, length_app. lia.
  - exists n1. split; [exact R1 | exact L1].
Qed.

Lemma withinRoom_ret {A : Type} (a : A) : withinRoom (ret a).
Proof. intros w n R. exists n. split; [exact R | cbn; lia]. Qed.

Lemma withinRoom_stopWith {A : Type} (o : ending_of A) : withinRoom (stopWith o).
Proof. intros w n R. exists n. split; [exact R | cbn; lia]. Qed.

Lemma withinRoom_call {A : Type} (o : outcome A) : withinRoom (call o).
Proof. destruct o; [apply withinRoom_ret | apply withinRoom_stopWith..]. Qed.

Lemma withinRoom_emit e : sent [e] = [] -> withinRoom (emit e).
Proof.
  intros E w n R. exists n. split; [exact R|].
  cbn [emit events world fst snd]. rewrite E. cbn; lia.
Qed.

Lemma room_tick w n : room w = Some n ->
  exists n', room (tick w) = Some n' /\ (n' <= n)%nat
    /\ (closed (tick w) = false -> (S n' <= n)%nat).
Proof.
  unfold room, tick. destruct w as [st cl [[|m]|]]; cbn; destruct cl; intros [= <-];
    eexists; (split; [reflexivity|]); split; try lia; try discriminate; intros _; lia.
Qed.

Lemma withinRoom_readStop : withinRoom readStop.
Proof.
  intros w n R. destruct (room_tick w n R) as (n' & R' & L & _).
  rewrite readStop_run. cbn [events world fst snd]. exists n'. split; [exact R'|].
  destruct (stop (tick w)); cbn; lia.
Qed.

Lemma withinRoom_send b : withinRoom (send b).
Proof.
  intros w n R. destruct (room_tick w n R) as (n' & R' & L & L').
  unfold send. destruct (closed (tick w)) eqn:C; cbn [events world fst snd].
  - exists n'. split; [exact R' | cbn; lia].
  - exists n'. split; [exact R'|]. specialize (L' eq_refl). cbn. lia.
Qed.

Section Session.
Variable ck : GoTime.Clock.
Variable s : gcpStream.
Variable c : Backend.

Lemma withinRoom_drain es : forall lt, withinRoom (drain ck es lt).
Proof.
  induction es as [|resp es IH]; intros lt; cbn [drain]; [apply withinRoom_ret|].
  apply withinRoom_bind; [apply withinRoom_emit; reflexivity|]. intros _.
  apply withinRoom_bind; [apply withinRoom_call|]. intros r.
  apply withinRoom_bind; [apply withinRoom_emit; reflexivity|]. intros _.
  apply withinRoom_bind; [apply withinRoom_send|]. intros _. apply IH.
Qed.

Lemma withinRoom_streamFromLoop fuel : forall k lt lf,
  withinRoom (streamFromLoop ck s c fuel k lt lf).
Proof.
  induction fuel as [|fuel IH]; intros k lt lf; [apply withinRoom_stopWith|].
  rewrite streamFromLoop_S.
  apply withinRoom_bind; [apply withinRoom_readStop|]. intros [|]; [apply withinRoom_ret|].
  apply withinRoom_bind; [apply withinRoom_emit; reflexivity|]. intros _.
  destruct (String.eqb (timestampFilter lt) lf); [apply withinRoom_ret|].
  apply withinRoom_bind; [apply withinRoom_emit; reflexivity|]. intros _.
  apply withinRoom_bind; [apply withinRoom_drain|]. intros lt'.
  destruct (Reader.ending _); [apply withinRoom_ret | apply IH].
Qed.

Lemma withinRoom_forward es : withinRoom (forward ck es).
Proof.
  induction es as [|resp es IH]; cbn [forward]; [apply withinRoom_ret|].
  apply withinRoom_bind; [apply withinRoom_call|]. intros r.
  apply withinRoom_bind; [apply withinRoom_send|]. intros _. apply IH.
Qed.

Lemma withinRoom_recvLoop chunks : withinRoom (recvLoop ck c chunks).
Proof.
  induction chunks as [|chunk rest IH]; cbn [recvLoop].
  - destruct (tailEnd c); [apply withinRoom_ret.. | apply withinRoom_stopWith].
  - apply withinRoom_bind; [apply withinRoom_forward|]. intros _. apply IH.
Qed.

Lemma withinRoom_streamTail : withinRoom (streamTail ck s c).
Proof.
  unfold streamTail.
  apply withinRoom_bind; [apply withinRoom_emit; reflexivity|]. intros _.
  destruct (TailLogEntries c); [apply withinRoom_ret|].
  destruct (tailSend c _); [apply withinRoom_ret | apply withinRoom_recvLoop].
Qed.

Lemma withinRoom_producer fuel : withinRoom (producer ck s c fuel).
Proof.
  unfold producer. apply withinRoom_bind.
  - destruct (isTail s); [apply withinRoom_streamTail|].
    apply withinRoom_bind; [apply withinRoom_streamFromLoop|].
    intros [e|]; [apply withinRoom_ret | apply withinRoom_streamTail].
  - intros [e|]; [|apply withinRoom_ret].
    destruct (onError s); [apply withinRoom_emit; reflexivity | apply withinRoom_ret].
Qed.

End Session.

End RoomFacts.

(** ** Time ranges *)

Module Resolution.
Import GoString GoTime TimeRange Watermark Durations Reader.
Import FormatFacts TimeRangeFacts WatermarkFacts HistoricalFacts RelativeFacts ResolveFacts.

(** X1.  A relative time range, a run of digits and a unit, resolves to
    the current time less that many units, as long as the duration
    fits in an [int64] count of nanoseconds. *)
Theorem ParseFrom_relative (ck : Clock) (str : string) (ds : list ascii) (u : ascii) :
  bytes (TrimSpace str) = ds ++ [u] -> ds <> [] -> forallb isDigit ds = true ->
  isUnit u = true ->
  count ds * unitSeconds u * 1000000000 <= maxInt64 ->
  0 <= now_nsec ck < 1000000000 ->
  let t := now_sec ck - count ds * unitSeconds u in
  ParseFrom ck str = Ret (FormatRFC3339 ck (mkTime t (now_nsec ck) Local))
  /\ (spellable ck t = true ->
      instantOf (FormatRFC3339 ck (mkTime t (now_nsec ck) Local)) = Some t).
Proof.
  intros E N D U F Hn t. split; [|apply instantOf_FormatRFC3339].
  rewrite (ParseFrom_regF ck str ds u E N D U).
  pose proof (count_nonneg ds D) as C0. pose proof (unitSeconds_pos u U) as U1.
  assert (M : maxInt64 = 9223372036854775807) by reflexivity.
  rewrite ParseInt_fits by nia.
  rewrite (durationOf_fits u (count ds) U C0 F).
  rewrite wrap64_small by (rewrite M in *; nia).
  replace (-1 * (count ds * unitSeconds u * 1000000000))
    with (- (count ds * unitSeconds u) * 1000000000) by lia.
  rewrite Add_whole by exact Hn. reflexivity.
Qed.

Lemma ParseFrom_relative_witness :
  ParseFrom Examples.utc " 90m" = Ret "2024-01-02T01:34:05Z"%string
  /\ instantOf "2024-01-02T01:34:05Z" = Some 1704159245.
Proof.
  assert (E : bytes (TrimSpace " 90m") = ["9"; "0"]%char ++ ["m"%char])
    by (vm_compute; reflexivity).
  assert (N : ["9"; "0"]%char <> []) by discriminate.
  assert (F : count ["9"; "0"]%char * unitSeconds "m" * 1000000000 <= maxInt64)
    by (vm_compute; discriminate).
  assert (Hn : 0 <= now_nsec Examples.utc < 1000000000)
    by (vm_compute; split; [discriminate | reflexivity]).
  assert (S : spellable Examples.utc (1704164645 - 90 * 60) = true)
    by (vm_compute; reflexivity).
  destruct (ParseFrom_relative Examples.utc " 90m" ["9"; "0"]%char "m"%char
              E N eq_refl eq_refl F Hn) as [P I].
  split.
  - exact P.
  - exact (I S).
Defined.

(** X2.  A count too large for an [int64] is read as the largest
    [int64], whose product with the unit wraps around: the range
    resolves to one unit after the current time. *)
Theorem ParseFrom_overflow (ck : Clock) (str : string) (ds : list ascii) (u : ascii) :
  bytes (TrimSpace str) = ds ++ [u] -> forallb isDigit ds = true -> isUnit u = true ->
  maxInt64 < count ds ->
  0 <= now_nsec ck < 1000000000 ->
  ParseFrom ck str
  = Ret (FormatRFC3339 ck (mkTime (now_sec ck + unitSeconds u) (now_nsec ck) Local)).
Proof.
  intros E D U F Hn.
  assert (N : ds <> []) by (intros ->; vm_compute in F; discriminate F).
  rewrite (ParseFrom_regF ck str ds u E N D U).
  rewrite ParseInt_saturates by exact F.
  rewrite (durationOf_saturated u U), Add_whole by exact Hn. reflexivity.
Qed.

Lemma ParseFrom_overflow_witness :
  ParseFrom Examples.utc "9223372036854775808s" = Ret "2024-01-02T03:04:06Z"%string.
Proof.
  rewrite (ParseFrom_overflow Examples.utc "9223372036854775808s"
             (bytes "9223372036854775808") "s"%char);
    try (vm_compute; reflexivity).
  vm_compute. split; [discriminate | reflexivity].
Defined.

(** X3.  What [ParseFrom] returns is the word [tail], exactly when the
    trimmed input is that word, or a timestamp of at least twenty
    bytes; so the reader made from it starts in Tail mode exactly for
    the input [tail]. *)
Theorem ParseFrom_tail_iff (ck : Clock) (str r project flt : string) (cb : bool) :
  ParseFrom ck str = Ret r ->
  (isTail (MakeGCPReader project flt r cb) = true <-> TrimSpace str = "tail"%string)
  /\ (TrimSpace str <> "tail"%string ->
      (20 <= String.length r)%nat /\ exists t, r = FormatRFC3339 ck t).
Proof.
  intros H. apply ParseFrom_Ret in H as [[E ->] | [N [t ->]]].
  - split; [|contradiction]. split; [intros _; exact E | reflexivity].
  - split.
    + cbn [isTail MakeGCPReader]. split; [|contradiction].
      intros H. apply String.eqb_eq in H.
      pose proof (FormatRFC3339_length ck t) as L. rewrite H in L. cbn in L. lia.
    + intros _. split; [apply FormatRFC3339_length | eauto].
Qed.

Lemma ParseFrom_tail_iff_witness :
  ParseFrom Examples.utc " tail " = Ret "tail"%string
  /\ isTail (MakeGCPReader "p" EmptyString "tail" true) = true
  /\ isTail (MakeGCPReader "p" EmptyString "2024-01-02T03:04:05Z" true) = false.
Proof.
  assert (P : ParseFrom Examples.utc " tail " = Ret "tail"%string)
    by (vm_compute; reflexivity).
  split; [exact P|]. split.
  - apply (ParseFrom_tail_iff Examples.utc " tail " "tail" "p" EmptyString true P).
    vm_compute. reflexivity.
  - destruct (isTail (MakeGCPReader "p" EmptyString "2024-01-02T03:04:05Z" true)) eqn:E;
      [|reflexivity].
    apply (ParseFrom_tail_iff Examples.utc "2024-01-02T03:04:05" _ "p" EmptyString true)
      in E; [|vm_compute; reflexivity].
    vm_compute in E. discriminate E.
Defined.

End Resolution.

Module Inputs.
Import GoString GoTime TimeRange Blank TrimFacts.

(** X4.  Only a relative time range is resolved against the
    surroundings: on any other input [ParseFrom] ends the same way
    whatever the clock and the local time zone are. *)
Theorem ParseFrom_clock_free (ck1 ck2 : Clock) (str : string) :
  regF (TrimSpace str) = false -> ParseFrom ck1 str = ParseFrom ck2 str.
Proof.
  intros H. unfold ParseFrom. rewrite H.
  destruct (String.eqb (TrimSpace str) "tail"); [reflexivity|].
  destruct (regD (TrimSpace str)); [|reflexivity].
  destruct (Parse (TrimSpace str)) as [t|] eqn:P; [|reflexivity].
  rewrite (FormatRFC3339_UTC ck1 ck2 t (Parse_UTC _ _ P)). reflexivity.
Qed.

Lemma ParseFrom_clock_free_witness :
  ParseFrom Examples.east "2024-01-02T03:04:05" = Ret "2024-01-02T03:04:05Z"%string.
Proof.
  rewrite (ParseFrom_clock_free Examples.east Examples.utc "2024-01-02T03:04:05");
    vm_compute; reflexivity.
Defined.

(** X5.  ASCII white space around the input is of no account:
    [ParseFrom] ends on the padded string as on the string itself. *)
Theorem ParseFrom_ignores_blanks (ck : Clock) (ws1 str ws2 : string) :
  blank ws1 = true -> blank ws2 = true ->
  ParseFrom ck (ws1 +:+ str +:+ ws2) = ParseFrom ck str.
Proof.
  intros B1 B2. unfold ParseFrom. rewrite (TrimSpace_blanks ws1 str ws2 B1 B2). reflexivity.
Qed.

Lemma ParseFrom_ignores_blanks_witness :
  ParseFrom Examples.utc "  90m " = Ret "2024-01-02T01:34:05Z"%string.
Proof.
  change "  90m "%string with ("  " +:+ "90m" +:+ " ")%string.
  rewrite (ParseFrom_ignores_blanks Examples.utc "  " "90m" " " eq_refl eq_refl).
  vm_compute. reflexivity.
Defined.

End Inputs.

(** ** Records *)

Module Members.
Import Json Logging Normalizer Record JsonFacts NormalizerFacts RecordFacts.

(** X6.  Normalisation touches six keys only.  Whenever
    [massageEntryLog] returns, a key other than these that
    [json.Marshal] wrote for the entry has in the record the value
    written, provided the value passes through a [float64] as it is,
    and a key that was not written is not in the record; the time
    returned beside the record is the record's [timestamp]. *)
Theorem massageEntryLog_members (ck : GoTime.Clock) (resp : LogEntry) (b : text)
  (lastTime : string) :
  massageEntryLog ck resp = Ret (b, lastTime) ->
  exists o kvs,
    b = Object o /\ Marshal_LogEntry resp = Some kvs
    /\ o !! "timestamp"%string = Some (DStr lastTime)
    /\ forall k, ~ List.In k rewritten ->
         match member k kvs with
         | Some d => plain d = true -> o !! k = Some d
         | None => o !! k = None
         end.
Proof.
  intros H. apply massageEntryLog_map in H as (kvs & m3 & E & -> & -> & D3 & L).
  eexists _, kvs. split; [reflexivity|]. split; [exact E|]. split.
  - rewrite lookup_omap, !lookup_delete_ne, L by done.
    rewrite lookup_insert_eq. reflexivity.
  - intros k N. unfold rewritten in N. cbn [List.In] in N.
    rewrite lookup_omap, !lookup_delete_ne, L by (intros HH; subst; apply N; auto 10).
    rewrite !lookup_insert_ne by (intros HH; subst; apply N; auto 10).
    rewrite store_member, lookup_empty.
    destruct (member k kvs) as [d|]; [|reflexivity]. intros _. cbn. apply encode_decode.
Qed.

Lemma massageEntryLog_members_witness :
  exists o,
    massageEntryLog Examples.utc (Examples.textEntry 10 "a")
    = Ret (Object o, "1970-01-01T00:00:10Z"%string)
    /\ o !! "insert_id"%string = Some (DStr "a1")
    /\ o !! "log_name"%string = Some (DStr "projects/p/logs/app")
    /\ o !! "labels"%string = None.
Proof.
  destruct (massageEntryLog Examples.utc (Examples.textEntry 10 "a")) as [[b lt]| |] eqn:R;
    [|exfalso; vm_compute in R; discriminate R..].
  destruct (massageEntryLog_members _ _ _ _ R) as (o & kvs & -> & E & T & K).
  destruct (SessionFacts.massageEntryLog_Ret _ _ _ _ R) as [-> _].
  exists o. split; [reflexivity|].
  vm_compute in E. injection E as <-.
  assert (N1 : ~ List.In "insert_id"%string rewritten) by (cbv; intuition discriminate).
  assert (N2 : ~ List.In "log_name"%string rewritten) by (cbv; intuition discriminate).
  assert (N3 : ~ List.In "labels"%string rewritten) by (cbv; intuition discriminate).
  pose proof (K _ N1) as K1. pose proof (K _ N2) as K2. pose proof (K _ N3) as K3.
  split; [exact (K1 eq_refl)|]. split; [exact (K2 eq_refl) | exact K3].
Defined.

End Members.

(** ** Sessions *)

Module Sessions.
Import Json Logging Normalizer Reader Trace Record Requests Delivery.
Import RunFacts HistoricalFacts ProducerFacts SessionFacts LoopFacts DeliveryFacts.
Import RequestFacts RoomFacts.

(** X7.  A listing without entries is the last: if the remote side
    answers the query number [j], counted from 0, with no entries, a
    session makes no query after it, so at most [j + 1] in all. *)
Theorem queries_end_at_empty_listing (ck : GoTime.Clock) (s : gcpStream) (c : Backend)
  (j fuel : nat) (w : World) :
  (forall req, entries (ListLogEntries c j req) = []) ->
  (length (queries (events (producer ck s c fuel w))) <= j + 1)%nat.
Proof. intros Hj. apply producer_bound. exact Hj. Qed.

Lemma queries_end_at_empty_listing_witness :
  length (queries (events (producer Examples.utc Examples.hist Examples.inOrder 7
                             (start None)))) = 2%nat.
Proof.
  apply Nat.le_antisymm.
  - apply (queries_end_at_empty_listing Examples.utc Examples.hist Examples.inOrder 1 7
             (start None)).
    intros req. reflexivity.
  - vm_compute. repeat constructor.
Defined.

(** X8.  Every request of a session follows the Watermark: each filter
    is built on the time range at first and on the timestamp of the
    latest entry delivered afterwards, and each query asks the
    project's log for that filter, joined with the user's, a hundred
    entries a page. *)
Theorem requests_follow_watermark (ck : GoTime.Clock) (s : gcpStream) (c : Backend)
  (fuel : nat) (w : World) :
  asksAfter s (freshness s) (events (producer ck s c fuel w)).
Proof. apply producer_asks. Qed.

(** X9.  The historical loop sends the record of every entry it
    receives, one for one and in the order received; only the entry
    at which a run broke off is without its record, and none is when
    [streamFrom] returns. *)
Theorem streamFrom_delivers (ck : GoTime.Clock) (s : gcpStream) (c : Backend)
  (fuel : nat) (w : World) :
  let r := streamFrom ck s c fuel w in
  recordsOf ck (returned (endOf r)) (sent (events r)) (received (events r)).
Proof. apply streamFromLoop_records. Qed.

(** X10.  Tail mode sends the records of the entries of the stream in
    the order of arrival, each once; all of them when [streamTail]
    returns nil.  On a channel that is not closed, with entries that
    all normalise and a stream that opens, [streamTail] does not
    panic, and when it returns all records were sent and it returns as
    the stream ended: nil at [io.EOF], the error of [Recv]
    otherwise. *)
Theorem streamTail_delivers (ck : GoTime.Clock) (s : gcpStream) (c : Backend)
  (w : World) :
  let r := streamTail ck s c w in
  let all := concat (tailChunks c) in
  (exists es1 es2, all = es1 ++ es2 /\ map Some (sent (events r)) = map (record ck) es1)
  /\ (endOf r = Done None -> map Some (sent (events r)) = map (record ck) all)
  /\ (TailLogEntries c = None ->
      tailSend c {| TailResourceNames := ["projects/" +:+ projectID s];
                    TailFilter := filter s |} = None ->
      closeIn w = None -> closed w = false ->
      Forall (fun e => is_Some (record ck e)) all ->
      (forall v, endOf r <> Panicked v)
      /\ (forall e, endOf r = Done e ->
            map Some (sent (events r)) = map (record ck) all
            /\ tailEnd c = match e with
                           | None => EOF
                           | Some err => RecvError err
                           end)).
Proof.
  cbv zeta. unfold streamTail. rewrite bind_emit. cbn [events endOf fst snd sent].
  destruct (TailLogEntries c) as [e|].
  { cbn. split; [exists [], (concat (tailChunks c)); auto|].
    split; discriminate. }
  destruct (tailSend c _) as [e|].
  { cbn. split; [exists [], (concat (tailChunks c)); auto|].
    split; discriminate. }
  destruct (recvLoop_records ck c (tailChunks c) w) as [(es1 & es2 & E & M & W) G].
  split; [exists es1, es2; auto|]. split.
  - intros H. rewrite H in W. rewrite (W eq_refl), app_nil_r in E. rewrite E. exact M.
  - intros _ _ Hc Ho F. destruct (G Hc Ho F) as [Ma Ee]. rewrite Ee. split.
    + intros v. destruct (tailEnd c); discriminate.
    + intros e He. split; [exact Ma|].
      destruct (tailEnd c); try discriminate He; injection He as <-; reflexivity.
Qed.

Lemma streamTail_delivers_witness :
  let r := streamTail Examples.utc Examples.live
             (Examples.remote [] [[Examples.textEntry 30 "c"]; [Examples.textEntry 31 "d"]]
                EOF) (start None) in
  endOf r = Done None /\ length (sent (events r)) = 2%nat.
Proof.
  cbv zeta.
  assert (E : endOf (streamTail Examples.utc Examples.live
                       (Examples.remote []
                          [[Examples.textEntry 30 "c"]; [Examples.textEntry 31 "d"]] EOF)
                       (start None)) = Done None) by (vm_compute; reflexivity).
  split; [exact E|].
  destruct (streamTail_delivers Examples.utc Examples.live
              (Examples.remote [] [[Examples.textEntry 30 "c"]; [Examples.textEntry 31 "d"]]
                 EOF) (start None)) as (_ & G & _).
  specialize (G E). apply (f_equal (@length _)) in G. rewrite !length_map in G.
  rewrite G. reflexivity.
Defined.


(** X12.  Nothing is delivered on a closed channel: a producer that
    starts after [Close] sends no record, and one whose owner calls
    [Close] after [n] of its steps sends at most [n]. *)
Theorem sends_within_room (ck : GoTime.Clock) (s : gcpStream) (c : Backend)
  (fuel : nat) (w : World) :
  let tr := events (producer ck s c fuel w) in
  (closed w = true -> sent tr = [])
  /\ (forall n, closeIn w = Some n -> (length (sent tr) <= n)%nat).
Proof.
  cbv zeta. pose proof (withinRoom_producer ck s c fuel w) as H. split.
  - intros Hc. destruct (H O) as (n' & _ & L); [unfold room; now rewrite Hc|].
    destruct (sent _); [reflexivity | cbn in L; lia].
  - intros n Hn. destruct (closed w) eqn:Hc.
    + destruct (H O) as (n' & _ & L); [unfold room; now rewrite Hc|]. lia.
    + destruct (H n) as (n' & _ & L); [unfold room; now rewrite Hc|]. lia.
Qed.

Lemma sends_within_room_witness :
  (length (sent (events (producer Examples.utc Examples.hist Examples.inOrder 5
                           (start (Some 2%nat))))) <= 2)%nat.
Proof.
  destruct (sends_within_room Examples.utc Examples.hist Examples.inOrder 5
              (start (Some 2%nat))) as [_ H].
  apply H. reflexivity.
Defined.

End Sessions.

Module Fallback.
Import Json Logging Normalizer Reader Trace Record Requests Delivery.
Import RunFacts HistoricalFacts ProducerFacts SessionFacts LoopFacts DeliveryFacts.



End Fallback.
